(** * thebe: notebook execution hooks, session provider and cell UI

    A shallow embedding of
    - the React hook [useNotebookBase] with [findErrors], [executeAll],
      [executeSome], [clear] and [reset];
    - the [ThebeSessionProvider] component ([startSession], [start]);
    - the cell UI glue ([getButtonsBusy], [setButtonsBusy],
      [clearButtonsBusy], [buildCellUI], [renderAllCells]).

    React state cells are fields of a record, setters are assignments that
    are also appended to a trace of effects, in program order.  A promise is
    modelled by its settlement: the code after [.then] / [await] runs on the
    resolved value, a rejection is propagated.  Calls of [console.log] and
    [console.debug] are left out. *)

From stdpp Require Import base option list strings gmap.
From Stdlib Require Import Lia Sorted.

(** ** State, trace and failure *)

Module Eff.

(** How a promise handed out by a collaborator settles. *)
Inductive Settled (A : Type) :=
| Resolves (a : A)
| Rejects (reason : string).
Arguments Resolves {A} a.
Arguments Rejects {A} reason.

Section Monad.
Context {S E : Type}.

(** The mutable state of a component and the effects it has performed,
    oldest first. *)
Record World := mkWorld { state : S; trace : list E }.

(** What the caller of an operation sees. *)
Inductive Outcome (A : Type) :=
| Returned (a : A) (w : World)
| Threw (msg : string) (w : World)
| Rejected (reason : string) (w : World).

Definition M (A : Type) : Type := World → Outcome A.

Definition ret {A} (a : A) : M A := λ w, Returned A a w.

Definition bind {A B} (m : M A) (f : A → M B) : M B := λ w,
  match m w with
  | Returned _ a w' => f a w'
  | Threw _ msg w' => Threw B msg w'
  | Rejected _ r w' => Rejected B r w'
  end.

(** [throw new Error(msg)] *)
Definition throw {A} (msg : string) : M A := λ w, Threw A msg w.

Definition emit (e : E) : M unit :=
  λ w, Returned unit () {| state := state w; trace := trace w ++ [e] |}.

Definition get : M S := λ w, Returned S (state w) w.

Definition put (s : S) : M unit :=
  λ w, Returned unit () {| state := s; trace := trace w |}.

(** [.then(...)] / [await] on a collaborator's promise: the rest runs on
    the resolved value, a rejection ends the operation. *)
Definition await {A} (p : Settled A) : M A :=
  match p with
  | Resolves a => ret a
  | Rejects r => λ w, Rejected A r w
  end.

(** The world an operation leaves behind, however it ended. *)
Definition world_after {A} (o : Outcome A) : World :=
  match o with
  | Returned _ _ w | Threw _ _ w | Rejected _ _ w => w
  end.

End Monad.

Arguments World : clear implicits.
Arguments Outcome : clear implicits.
Arguments M : clear implicits.
Arguments Returned {S E A} a w.
Arguments Threw {S E A} msg w.
Arguments Rejected {S E A} reason w.

#[export] Instance M_ret {S E} : MRet (M S E) := λ A, ret.
#[export] Instance M_bind {S E} : MBind (M S E) := λ A B f m, bind m f.

End Eff.

(** ** Collaborators imported from thebe-core *)

Module ThebeCore.
Import Eff.

(** [IThebeCell], as far as the hooks look at it. *)
Record ThebeCell := mkCell { cell_id : string; cell_source : string }.

(** A structured error reported by the kernel.  It is a JavaScript object,
    hence truthy whenever it is present. *)
Record IError := mkError { ename : string; evalue : string }.

(** [IThebeCellExecuteReturn]: the cell that ran and the optional error. *)
Record IThebeCellExecuteReturn :=
  mkReturn { ret_id : string; ret_error : option IError }.

(** [preprocessor?: (s: string) => string] *)
Definition Preprocessor := string → string.

(** The part of the [ThebeNotebook] class the hooks call.  The notebook is
    a mutable object: every method also gives the notebook as it is after
    the call. *)
Class ThebeNotebook (NB : Type) := {
  cells : NB → list ThebeCell;
  isAttached : NB → bool;
  nb_executeAll :
    bool → option Preprocessor → NB →
    Settled (list (option IThebeCellExecuteReturn)) * NB;
  nb_executeCells :
    list string → bool → option Preprocessor → NB →
    Settled (list (option IThebeCellExecuteReturn)) * NB;
  nb_clear : NB → NB;
  getCellById : NB → string → option ThebeCell
}.

End ThebeCore.

(** ** packages/react: useNotebookBase *)

Module Notebook.
Import Eff ThebeCore.

(** A callback [() => void] passed by the caller.  It is opaque to the
    hook: calling it is recorded, nothing else is known about it. *)
Inductive Callback := callback (name : string).

Record NotebookExecuteOptions := mkOptions {
  stopOnError : option bool;
  before : option Callback;
  after : option Callback;
  preprocessor : option Preprocessor
}.

(** [IThebeNotebookError = IThebeCellExecuteReturn & { index: number }] *)
Record IThebeNotebookError :=
  mkNotebookError { err_return : IThebeCellExecuteReturn; index : nat }.

(** [Array.prototype.reduce] with the three-argument callback
    [(acc, value, index)] and an initial value. *)
Fixpoint reduce_from {A B : Type} (f : B → A → nat → B)
    (l : list A) (i : nat) (acc : B) : B :=
  match l with
  | [] => acc
  | x :: l' => reduce_from f l' (S i) (f acc x i)
  end.

Definition reduce {A B : Type} (f : B → A → nat → B) (l : list A) (init : B) : B :=
  reduce_from f l 0 init.

(** [retval?.error]: truthy when the entry is not null and has an error. *)
Definition carries_error (retval : option IThebeCellExecuteReturn) : bool :=
  match retval with
  | Some r => bool_decide (is_Some (ret_error r))
  | None => false
  end.

Definition findErrors_step (acc : option (list IThebeNotebookError))
    (retval : option IThebeCellExecuteReturn) (index : nat)
    : option (list IThebeNotebookError) :=
  match retval with
  | Some r =>
      if carries_error retval then
        match acc with
        | None => Some [mkNotebookError r index]
        | Some acc' => Some (acc' ++ [mkNotebookError r index])
        end
      else acc
  | None => acc
  end.

Definition findErrors (execReturns : list (option IThebeCellExecuteReturn))
    : option (list IThebeNotebookError) :=
  reduce findErrors_step execReturns None.

(** The entry that stands for a failing result at position [i]. *)
Definition recorded (entry : nat * option IThebeCellExecuteReturn)
    : option IThebeNotebookError :=
  let '(i, retval) := entry in
  match retval with
  | Some r => if carries_error retval then Some (mkNotebookError r i) else None
  | None => None
  end.

(** The failing entries of [l], numbered from [i] on, in list order. *)
Definition failing_from (i : nat) (l : list (option IThebeCellExecuteReturn))
    : list IThebeNotebookError :=
  omap recorded (imap (λ j x, (i + j, x)) l).

(** The error collection as the specification words it: the failing
    entries, each with its position, in list order. *)
Definition failing_entries (execReturns : list (option IThebeCellExecuteReturn))
    : list IThebeNotebookError :=
  failing_from 0 execReturns.

(** Appending newly found entries to an accumulator that may be null. *)
Definition extend (acc : option (list IThebeNotebookError))
    (found : list IThebeNotebookError) : option (list IThebeNotebookError) :=
  match found with
  | [] => acc
  | _ => Some (default [] acc ++ found)
  end.

Section Hook.
Context {NB : Type} `{!ThebeNotebook NB}.

(** The [useState] cells of [useNotebookBase]. *)
Record HookState := mkHook {
  notebook : option NB;
  executing : bool;
  executed : bool;
  errors : option (list IThebeNotebookError)
}.

(** Initial values given to [useState]. *)
Definition useNotebookBase : HookState :=
  {| notebook := None; executing := false; executed := false; errors := None |}.

(** [ready: !!notebook && notebook.isAttached] *)
Definition ready (s : HookState) : bool :=
  match notebook s with
  | Some nb => isAttached nb
  | None => false
  end.

(** [attached: notebook?.isAttached ?? false] *)
Definition attached (s : HookState) : bool :=
  default false (isAttached <$> notebook s).

Inductive Effect :=
| ECall (cb : Callback)
| ESetNotebook
| ESetExecuting (b : bool)
| ESetExecuted (b : bool)
| ESetErrors (errs : list IThebeNotebookError)
| ENotebookExecuteAll (stop : bool) (pre : option Preprocessor)
| ENotebookExecuteCells (ids : list string) (stop : bool) (pre : option Preprocessor)
| ENotebookClear.

Definition World := Eff.World HookState Effect.
Definition M := Eff.M HookState Effect.

Definition setNotebook (nb : NB) : M unit :=
  s ← get;
  put {| notebook := Some nb; executing := executing s;
         executed := executed s; errors := errors s |};;
  emit ESetNotebook.

Definition setExecuting (b : bool) : M unit :=
  s ← get;
  put {| notebook := notebook s; executing := b;
         executed := executed s; errors := errors s |};;
  emit (ESetExecuting b).

Definition setExecuted (b : bool) : M unit :=
  s ← get;
  put {| notebook := notebook s; executing := executing s;
         executed := b; errors := errors s |};;
  emit (ESetExecuted b).

Definition setErrors (errs : list IThebeNotebookError) : M unit :=
  s ← get;
  put {| notebook := notebook s; executing := executing s;
         executed := executed s; errors := Some errs |};;
  emit (ESetErrors errs).

(** [options?.before?.()] and [options?.after?.()] *)
Definition call (cb : option Callback) : M unit :=
  match cb with
  | Some f => emit (ECall f)
  | None => mret ()
  end.

(** The notebook object is shared: what a method does to it is seen
    through the reference kept in the hook's state. *)
Definition mutate_notebook (nb' : NB) : M unit :=
  s ← get;
  put {| notebook := (λ _, nb') <$> notebook s; executing := executing s;
         executed := executed s; errors := errors s |}.

(** [notebook.executeAll(stopOnError, preprocessor)]: the call is made now,
    the promise it returns settles later. *)
Definition notebook_executeAll (nb : NB) (stop : bool) (pre : option Preprocessor)
    : M (Settled (list (option IThebeCellExecuteReturn))) :=
  emit (ENotebookExecuteAll stop pre);;
  let '(p, nb') := nb_executeAll stop pre nb in
  mutate_notebook nb';;
  mret p.

(** [notebook.executeCells(ids, stopOnError, preprocessor)] *)
Definition notebook_executeCells (nb : NB) (ids : list string) (stop : bool)
    (pre : option Preprocessor)
    : M (Settled (list (option IThebeCellExecuteReturn))) :=
  emit (ENotebookExecuteCells ids stop pre);;
  let '(p, nb') := nb_executeCells ids stop pre nb in
  mutate_notebook nb';;
  mret p.

(** The callback given to [.then]; [executeAll] and [executeSome] pass
    the same one. *)
Definition on_executed (options : option NotebookExecuteOptions)
    (execReturns : list (option IThebeCellExecuteReturn))
    : M (list (option IThebeCellExecuteReturn)) :=
  call (options ≫= after);;
  let errs := findErrors execReturns in
  match errs with
  | Some errs' => setErrors errs'
  | None => mret ()
  end;;
  setExecuted true;;
  setExecuting false;;
  mret execReturns.

(** The synchronous part of [executeAll]: everything up to and including
    the call of the notebook's method. *)
Definition executeAll_dispatch (options : option NotebookExecuteOptions)
    : M (Settled (list (option IThebeCellExecuteReturn))) :=
  s ← get;
  match notebook s with
  | None => throw "executeAll called before notebook available"
  | Some nb =>
      call (options ≫= before);;
      setExecuting true;;
      notebook_executeAll nb (default true (options ≫= stopOnError))
                          (options ≫= preprocessor)
  end.

Definition executeAll (options : option NotebookExecuteOptions)
    : M (list (option IThebeCellExecuteReturn)) :=
  p ← executeAll_dispatch options;
  execReturns ← await p;
  on_executed options execReturns.

Definition executeSome_dispatch (predicate : ThebeCell → bool)
    (options : option NotebookExecuteOptions)
    : M (Settled (list (option IThebeCellExecuteReturn))) :=
  s ← get;
  match notebook s with
  | None => throw "executeSome called before notebook available"
  | Some nb =>
      call (options ≫= before);;
      setExecuting true;;
      let filteredCells := cell_id <$> List.filter predicate (cells nb) in
      notebook_executeCells nb filteredCells
                            (default true (options ≫= stopOnError))
                            (options ≫= preprocessor)
  end.

Definition executeSome (predicate : ThebeCell → bool)
    (options : option NotebookExecuteOptions)
    : M (list (option IThebeCellExecuteReturn)) :=
  p ← executeSome_dispatch predicate options;
  execReturns ← await p;
  on_executed options execReturns.

Definition clear : M unit :=
  s ← get;
  match notebook s with
  | None => throw "clear called before notebook available"
  | Some nb =>
      emit ENotebookClear;;
      mutate_notebook (nb_clear nb);;
      setExecuted false
  end.

(** [reset: () => { setExecuted(false); }] *)
Definition reset : M unit := setExecuted false.

(** The [ECall] effect of an optional callback. *)
Definition calls (cb : option Callback) : list Effect :=
  match cb with Some f => [ECall f] | None => [] end.

(** The [setErrors] effect of a run, if it has one. *)
Definition sets_errors (found : option (list IThebeNotebookError)) : list Effect :=
  match found with Some errs => [ESetErrors errs] | None => [] end.

(** What a user of the hook can make happen: the operations the hook
    returns, and the [.then] callback of a run dispatched earlier firing
    on whatever the notebook resolved with. *)
Inductive Action :=
| DoSetNotebook (nb : NB)
| DoExecuteAll (options : option NotebookExecuteOptions)
| DoExecuteSome (predicate : ThebeCell → bool) (options : option NotebookExecuteOptions)
| DoClear
| DoReset
| DoDispatchAll (options : option NotebookExecuteOptions)
| DoDispatchSome (predicate : ThebeCell → bool) (options : option NotebookExecuteOptions)
| DoSettle (options : option NotebookExecuteOptions)
           (execReturns : list (option IThebeCellExecuteReturn)).

Definition perform (a : Action) (w : World) : World :=
  match a with
  | DoSetNotebook nb => world_after (setNotebook nb w)
  | DoExecuteAll o => world_after (executeAll o w)
  | DoExecuteSome p o => world_after (executeSome p o w)
  | DoClear => world_after (clear w)
  | DoReset => world_after (reset w)
  | DoDispatchAll o => world_after (executeAll_dispatch o w)
  | DoDispatchSome p o => world_after (executeSome_dispatch p o w)
  | DoSettle o rs => world_after (on_executed o rs w)
  end.

Definition mounted : World := {| state := useNotebookBase; trace := [] |}.

Inductive reachable : World → Prop :=
| reachable_mounted : reachable mounted
| reachable_perform w a : reachable w → reachable (perform a w).

(** The world after a history of actions, oldest first. *)
Definition after_actions (history : list Action) : World :=
  foldl (λ w a, perform a w) mounted history.

End Hook.

Arguments HookState NB : clear implicits.

End Notebook.

(** ** The notebook of thebe-core, from its description *)

Module SpecNotebook.
Import Eff ThebeCore.

(** Modelled from the spec: the [ThebeNotebook] class lives in thebe-core
    (packages/core), which is not among the sources; only its callers are.
    The notebook is "an ordered sequence of Cells"; a cell, once run, owns
    "an execution result record"; a notebook is "attached" once bound to a
    session.  The remote kernel is the function [kernel], from the source
    it is sent to the error it reports, if any. *)
Record t := mk {
  cell_list : list ThebeCell;
  kernel : string → option IError;
  results : list IThebeCellExecuteReturn;
  attached : bool
}.

(** Modelled from the spec: a result counts as a failure when it carries an
    error ("entries whose result carries an error"). *)
Definition failed (r : IThebeCellExecuteReturn) : bool :=
  bool_decide (is_Some (ret_error r)).

(** Modelled from the spec: running one cell of the missing notebook class.
    The preprocessor is "a pure string→string transform applied to source
    immediately before sending it for execution". *)
Definition execute (nb : t) (pre : option Preprocessor) (c : ThebeCell)
    : IThebeCellExecuteReturn :=
  let sent := match pre with
              | Some f => f (cell_source c)
              | None => cell_source c
              end in
  {| ret_id := cell_id c; ret_error := kernel nb sent |}.

(** Modelled from the spec: the run of a list of cells by the missing
    notebook class.  "Cells are dispatched to the remote kernel in notebook
    order and, under stopOnError=true, execution halts at the first failing
    cell"; the cells after it get null.  "Under stopOnError=false, all
    selected cells are dispatched and their results collected regardless of
    earlier failures." *)
Fixpoint run (nb : t) (stop : bool) (pre : option Preprocessor)
    (halted : bool) (cs : list ThebeCell) : list (option IThebeCellExecuteReturn) :=
  match cs with
  | [] => []
  | c :: cs' =>
      if halted then None :: run nb stop pre true cs'
      else
        let r := execute nb pre c in
        Some r :: run nb stop pre (stop && failed r) cs'
  end.

(** Modelled from the spec: the results a run leaves in the cells of the
    missing notebook class. *)
Definition with_results (nb : t) (rs : list (option IThebeCellExecuteReturn)) : t :=
  {| cell_list := cell_list nb; kernel := kernel nb;
     results := omap id rs; attached := attached nb |}.

(** Modelled from the spec: [executeAll(stopOnError, preprocessor?)] of the
    missing notebook class, a "list of ExecutionResult|null per cell". *)
Definition executeAll (stop : bool) (pre : option Preprocessor) (nb : t)
    : Settled (list (option IThebeCellExecuteReturn)) * t :=
  let rs := run nb stop pre false (cell_list nb) in
  (Resolves rs, with_results nb rs).

(** Modelled from the spec: the cells [executeCells] of the missing
    notebook class runs, those whose id is among the ids given, "executed
    in original notebook order". *)
Definition selected (nb : t) (ids : list string) : list ThebeCell :=
  List.filter (λ c, bool_decide (cell_id c ∈ ids)) (cell_list nb).

(** Modelled from the spec: [executeCells(ids, stopOnError, preprocessor?)]
    of the missing notebook class, "same, restricted". *)
Definition executeCells (ids : list string) (stop : bool)
    (pre : option Preprocessor) (nb : t)
    : Settled (list (option IThebeCellExecuteReturn)) * t :=
  let rs := run nb stop pre false (selected nb ids) in
  (Resolves rs, with_results nb rs).

(** Modelled from the spec: [clear()] of the missing notebook class, which
    discards "all outputs/results". *)
Definition clear (nb : t) : t :=
  {| cell_list := cell_list nb; kernel := kernel nb;
     results := []; attached := attached nb |}.

(** Modelled from the spec: [getCellById(id) → Cell|undefined] of the
    missing notebook class. *)
Definition getCellById (nb : t) (id : string) : option ThebeCell :=
  List.find (λ c, bool_decide (cell_id c = id)) (cell_list nb).

(** Modelled from the spec: the missing notebook class as a whole. *)
#[global] Instance notebook : ThebeNotebook t := {|
  cells := cell_list;
  isAttached := attached;
  nb_executeAll := executeAll;
  nb_executeCells := executeCells;
  nb_clear := clear;
  ThebeCore.getCellById := getCellById
|}.

End SpecNotebook.

(** ** packages/react: ThebeSessionProvider *)

Module Session.
Import Eff.

(** [ThebeSession] (thebe-core), as the provider uses it: a handle, and
    how its [restart()] and [shutdown()] promises settle. *)
Record ThebeSession := mkSession {
  session_id : string;
  restart_settles : Settled unit;
  shutdown_settles : Settled unit
}.

(** The answer of [getKernelSpecs()]: [kernelspecs] is an object keyed by
    kernel name, kept here as its entries in the order [Object.keys]
    enumerates them. *)
Record KernelSpec := mkKernelSpec { display_name : string; language : string }.
Record KernelSpecs := mkKernelSpecs { kernelspecs : list (string * KernelSpec) }.

(** [ThebeServer] (thebe-core), as the provider uses it: what the server
    answers to a session request and to a query for its kernel
    specifications.  The argument of [startNewSession] is an object with
    string values. *)
Record ThebeServer := mkServer {
  startNewSession : gmap string string → Settled (option ThebeSession);
  getKernelSpecs : Settled KernelSpecs
}.

Record Config := mkConfig { kernels : gmap string string }.

(** What [useThebeServer()] provides. *)
Record ServerContext := mkServerContext {
  config : option Config;
  server : option ThebeServer;
  serverReady : bool
}.

(** The properties of the component; [start] defaults to true, [name] to
    [default] and [shutdownOnUnmount] to false. *)
Record Props := mkProps {
  start_prop : bool;
  name : string;
  shutdownOnUnmount : bool
}.

(** The [useState] cells of the provider. *)
Record ProviderState := mkProvider {
  starting : bool;
  doRestart : bool;
  restarting : bool;
  session : option ThebeSession;
  ready : bool;
  error : option string
}.

Definition ThebeSessionProvider : ProviderState :=
  {| starting := false; doRestart := false; restarting := false;
     session := None; ready := false; error := None |}.

Inductive Effect :=
| ESetStarting (b : bool)
| ESetDoRestart (b : bool)
| ESetRestarting (b : bool)
| ESetSession (s : option ThebeSession)
| ESetReady (b : bool)
| ESetError (msg : string)
| EStartNewSession (request : gmap string string)
| EGetKernelSpecs
| ESessionRestart (s : ThebeSession)
| ESessionShutdown (s : ThebeSession).

Definition World := Eff.World ProviderState Effect.
Definition M := Eff.M ProviderState Effect.

Definition setStarting (b : bool) : M unit :=
  s ← get;
  put {| starting := b; doRestart := doRestart s; restarting := restarting s;
         session := session s; ready := ready s; error := error s |};;
  emit (ESetStarting b).

Definition setDoRestart (b : bool) : M unit :=
  s ← get;
  put {| starting := starting s; doRestart := b; restarting := restarting s;
         session := session s; ready := ready s; error := error s |};;
  emit (ESetDoRestart b).

Definition setRestarting (b : bool) : M unit :=
  s ← get;
  put {| starting := starting s; doRestart := doRestart s; restarting := b;
         session := session s; ready := ready s; error := error s |};;
  emit (ESetRestarting b).

Definition setSession (x : option ThebeSession) : M unit :=
  s ← get;
  put {| starting := starting s; doRestart := doRestart s;
         restarting := restarting s;
         session := x; ready := ready s; error := error s |};;
  emit (ESetSession x).

Definition setReady (b : bool) : M unit :=
  s ← get;
  put {| starting := starting s; doRestart := doRestart s;
         restarting := restarting s;
         session := session s; ready := b; error := error s |};;
  emit (ESetReady b).

Definition setError (msg : string) : M unit :=
  s ← get;
  put {| starting := starting s; doRestart := doRestart s;
         restarting := restarting s;
         session := session s; ready := ready s; error := Some msg |};;
  emit (ESetError msg).

(** [{ ...config?.kernels, name, path: name }] *)
Definition session_request (ctx : ServerContext) (props : Props)
    : gmap string string :=
  <["path" := name props]>
    (<["name" := name props]>
       (match config ctx with
        | Some c => kernels c
        | None => ∅
        end)).

(** [Object.keys(o)] *)
Definition Object_keys {V} (o : list (string * V)) : list string := o.*1.

(** An array of strings inside a template literal: its elements joined
    by commas. *)
Definition Array_toString (a : list string) : string := String.concat "," a.

Definition could_not_start (specs : KernelSpecs) : string :=
  "Could not start a session - available kernels: "
    +:+ Array_toString (Object_keys (kernelspecs specs)).

(** The callback given to [.then] on the promise of [startNewSession].  A
    rejection of [getKernelSpecs()] is not handled: nothing more runs. *)
Definition on_session (srv : ThebeServer) (sesh : option ThebeSession) : M unit :=
  setStarting false;;
  match sesh with
  | None =>
      emit EGetKernelSpecs;;
      match getKernelSpecs srv with
      | Resolves specs => setError (could_not_start specs)
      | Rejects _ => mret ()
      end
  | Some s =>
      setSession (Some s);;
      setReady true
  end.

(** [startSession] returns at once; the callbacks run when the server has
    answered, which is where they are placed here.  With no server,
    [server?.] skips the request.  A rejection of [startNewSession] is not
    handled. *)
Definition startSession (ctx : ServerContext) (props : Props) : M unit :=
  setStarting true;;
  match server ctx with
  | None => mret ()
  | Some srv =>
      emit (EStartNewSession (session_request ctx props));;
      match startNewSession srv (session_request ctx props) with
      | Resolves sesh => on_session srv sesh
      | Rejects _ => mret ()
      end
  end.

(** [start: async () => { if (!!session && ready) await session.restart();
    else startSession(); }] *)
Definition start (ctx : ServerContext) (props : Props) : M unit :=
  s ← get;
  match session s with
  | Some sess =>
      if ready s then
        emit (ESessionRestart sess);;
        await (restart_settles sess)
      else startSession ctx props
  | None => startSession ctx props
  end.

(** [restart: () => { setDoRestart(true); setRestarting(true); }] *)
Definition restart : M unit :=
  setDoRestart true;;
  setRestarting true.

(** The effect that services a restart request. *)
Definition service_restart : M unit :=
  s ← get;
  if doRestart s then
    setDoRestart false;;
    match session s with
    | Some sess =>
        emit (ESessionRestart sess);;
        match restart_settles sess with
        | Resolves _ => setRestarting false
        | Rejects _ => mret ()
        end
    | None => setRestarting false
    end
  else mret ().

(** [shutdown: async () => { if (session) { await session.shutdown();
    setReady(false); setSession(undefined); } }] *)
Definition shutdown : M unit :=
  s ← get;
  match session s with
  | Some sess =>
      emit (ESessionShutdown sess);;
      await (shutdown_settles sess);;
      setReady false;;
      setSession None
  | None => mret ()
  end.

(** The effect that starts a session once the server is ready. *)
Definition auto_start (ctx : ServerContext) (props : Props) : M unit :=
  s ← get;
  if bool_decide (server ctx = None) || negb (serverReady ctx)
     || negb (starting s) || negb (start_prop props)
  then mret ()
  else startSession ctx props.


End Session.

(** ** packages/thebe: the cell user interface *)

Module UI.
Import ThebeCore.

(** The click handlers [buildCellUI] installs.  They are closures; what
    matters here is which one a button got. *)
Inductive Handler :=
| LogDebug (classSlug : string)
| RunCell (cellId : string)
| RunAllCells (cellId : string)
| RestartKernel (cellId : string).

(** A DOM element.  JavaScript holds elements by reference; [handle] is
    that reference, given out by [createElement] and never reused.
    [visibility] is [style.visibility], empty while the script has not set
    it. *)
#[local] Unset Elimination Schemes.
Inductive Element := mkElement {
  handle : nat;
  tagName : string;
  attributes : list (string * string);
  classList : list string;
  visibility : string;
  textContent : string;
  onclick : option Handler;
  children : list Element
}.
#[local] Set Elimination Schemes.

Definition with_children (e : Element) (cs : list Element) : Element :=
  {| handle := handle e; tagName := tagName e; attributes := attributes e;
     classList := classList e; visibility := visibility e;
     textContent := textContent e; onclick := onclick e; children := cs |}.

Definition with_visibility (v : string) (e : Element) : Element :=
  {| handle := handle e; tagName := tagName e; attributes := attributes e;
     classList := classList e; visibility := v;
     textContent := textContent e; onclick := onclick e;
     children := children e |}.

Definition with_textContent (t : string) (e : Element) : Element :=
  {| handle := handle e; tagName := tagName e; attributes := attributes e;
     classList := classList e; visibility := visibility e;
     textContent := t; onclick := onclick e; children := children e |}.

Definition with_onclick (f : Handler) (e : Element) : Element :=
  {| handle := handle e; tagName := tagName e; attributes := attributes e;
     classList := classList e; visibility := visibility e;
     textContent := textContent e; onclick := Some f; children := children e |}.

(** [e.getAttribute(k)] *)
Definition getAttribute (k : string) (e : Element) : option string :=
  snd <$> List.find (λ kv, bool_decide (kv.1 = k)) (attributes e).

(** [e.setAttribute(k, v)]: the value of an attribute that is there is
    replaced in place, a new attribute goes last. *)
Fixpoint set_assoc (k v : string) (l : list (string * string)) : list (string * string) :=
  match l with
  | [] => [(k, v)]
  | (k', v') :: l' =>
      if bool_decide (k' = k) then (k, v) :: l' else (k', v') :: set_assoc k v l'
  end.

Definition setAttribute (k v : string) (e : Element) : Element :=
  {| handle := handle e; tagName := tagName e;
     attributes := set_assoc k v (attributes e);
     classList := classList e; visibility := visibility e;
     textContent := textContent e; onclick := onclick e;
     children := children e |}.

(** [e.classList.add(...tokens)]: a token already there is not added. *)
Definition classList_add (tokens : list string) (e : Element) : Element :=
  {| handle := handle e; tagName := tagName e; attributes := attributes e;
     classList := foldl (λ cl t, if bool_decide (t ∈ cl) then cl else cl ++ [t])
                        (classList e) tokens;
     visibility := visibility e;
     textContent := textContent e; onclick := onclick e;
     children := children e |}.

(** [parent.append(child)] / [parent.appendChild(child)], for a child that
    is not yet in any tree. *)
Definition append (child : Element) (parent : Element) : Element :=
  with_children parent (children parent ++ [child]).

(** The element and its descendants in tree order. *)
Fixpoint subtree (e : Element) : list Element :=
  e :: flat_map subtree (children e).

Definition descendants (e : Element) : list Element :=
  flat_map subtree (children e).

(** Applies [f] to the element referred to by [h], wherever it is below
    (or at) [e]. *)
Fixpoint update (h : nat) (f : Element → Element) (e : Element) : Element :=
  let e' := with_children e (map (update h f) (children e)) in
  if bool_decide (handle e = h) then f e' else e'.

(** Puts [new] in the place of the element referred to by [h]. *)
Fixpoint replace_in (h : nat) (new : Element) (e : Element) : Element :=
  if bool_decide (handle e = h) then new
  else with_children e (map (replace_in h new) (children e)).

(** The ID of an element: its [id] attribute when that is not empty. *)
Definition element_id (e : Element) : option string :=
  match getAttribute "id" e with
  | Some v => if bool_decide (v = "") then None else Some v
  | None => None
  end.

(** [e.getElementsByClassName(name)] for a [name] without white space:
    the descendants of [e] that have the class, in tree order. *)
Definition getElementsByClassName (name : string) (e : Element) : list Element :=
  List.filter (λ d, bool_decide (name ∈ classList d)) (descendants e).

(** [collection.item(i)] *)
Definition item {A} (i : nat) (collection : list A) : option A := collection !! i.

(** A timer callback of this script. *)
Inductive Task :=
| HideBusy (id : string).

(** What the script does to things outside the page. *)
Inductive Effect :=
| EImport (path : string)
| ENewCodeMirror (host : nat) (value mode : string) (readyOnly : bool)
| EModeEnsure (mode : string)
| EAttachToDOM (cellId : string) (output : nat).

(** The browser: the elements in the page (the children of its root, as
    far as the script meets them), the elements held by the script but in
    no page, the next free reference, the pending timers with the time
    each is due, the clock in milliseconds, and the calls made so far. *)
Record Browser := mkBrowser {
  document : list Element;
  detached : list Element;
  next_handle : nat;
  timers : list (nat * Task);
  now : nat;
  calls : list Effect
}.

Definition UI (A : Type) : Type := Browser → A * Browser.

#[export] Instance UI_ret : MRet UI := λ A a b, (a, b).
#[export] Instance UI_bind : MBind UI := λ A B f m b,
  let '(a, b') := m b in f a b'.

Definition get : UI Browser := λ b, (b, b).

Definition emit (e : Effect) : UI unit := λ b,
  ((), {| document := document b; detached := detached b;
          next_handle := next_handle b; timers := timers b; now := now b;
          calls := calls b ++ [e] |}).

Definition set_elements (doc det : list Element) : UI unit := λ b,
  ((), {| document := doc; detached := det;
          next_handle := next_handle b; timers := timers b; now := now b;
          calls := calls b |}).

(** [document.createElement(tag)] *)
Definition createElement (tag : string) : UI Element := λ b,
  ({| handle := next_handle b; tagName := tag; attributes := [];
      classList := []; visibility := ""; textContent := ""; onclick := None;
      children := [] |},
   {| document := document b; detached := detached b;
      next_handle := S (next_handle b); timers := timers b; now := now b;
      calls := calls b |}).

(** Every element the script can hold. *)
Definition all_elements (b : Browser) : list Element :=
  flat_map subtree (document b) ++ flat_map subtree (detached b).

Definition deref (h : nat) (b : Browser) : option Element :=
  List.find (λ e, bool_decide (handle e = h)) (all_elements b).

Definition in_page (h : nat) (b : Browser) : bool :=
  bool_decide (h ∈ handle <$> flat_map subtree (document b)).

(** [document.getElementById(id)]: the first element of the page, in tree
    order, with that ID. *)
Definition getElementById (id : string) (b : Browser) : option Element :=
  List.find (λ e, bool_decide (element_id e = Some id))
            (flat_map subtree (document b)).

(** An assignment to a property of the element referred to by [h]. *)
Definition modify (h : nat) (f : Element → Element) : UI unit :=
  b ← get;
  set_elements (update h f <$> document b) (update h f <$> detached b).

(** [old.replaceWith(new)], for a [new] that is in no tree: when [old] has
    a parent, [new] takes its place and [old] is in no tree any more;
    when it has none, nothing moves. *)
Definition replaceWith (old : nat) (new : Element) : UI unit :=
  b ← get;
  if in_page old b then
    set_elements (replace_in old new <$> document b)
                 (detached b ++ option_list (deref old b))
  else
    set_elements (document b) (detached b ++ [new]).

(** [setTimeout(task, delay)] *)
Definition setTimeout (task : Task) (delay : nat) : UI unit := λ b,
  ((), {| document := document b; detached := detached b;
          next_handle := next_handle b;
          timers := timers b ++ [(now b + delay, task)]; now := now b;
          calls := calls b |}).

(** [getButtonsBusy(id)] *)
Definition getButtonsBusy (id : string) (b : Browser) : option nat :=
  cell ← getElementById id b;
  busy ← item 0 (getElementsByClassName ".thebe-busy" cell);
  Some (handle busy).

Definition setButtonsBusy (id : string) : UI unit :=
  b ← get;
  match getButtonsBusy id b with
  | Some busy => modify busy (with_visibility "visible")
  | None => mret ()
  end.

Definition run_task (t : Task) : UI unit :=
  match t with
  | HideBusy id =>
      b ← get;
      match getButtonsBusy id b with
      | Some busy => modify busy (with_visibility "hidden")
      | None => mret ()
      end
  end.

Definition clearButtonsBusy (id : string) : UI unit :=
  setTimeout (HideBusy id) 3000.

Fixpoint run_tasks (ts : list Task) : UI unit :=
  match ts with
  | [] => mret ()
  | t :: ts' => run_task t;; run_tasks ts'
  end.

(** [ms] milliseconds pass and the timers that are due fire.  Timers are
    set with one and the same delay, so those set first are due first. *)
Definition elapse (ms : nat) : UI unit := λ b,
  let due := List.filter (λ '(t, _), bool_decide (t ≤ now b + ms)) (timers b) in
  let pending := List.filter (λ '(t, _), bool_decide (now b + ms < t)) (timers b) in
  run_tasks due.*2
    {| document := document b; detached := detached b;
       next_handle := next_handle b; timers := pending; now := now b + ms;
       calls := calls b |}.

(** [CellDOMItem] *)
Record Placeholders := mkPlaceholders { source : nat; output : option nat }.

Record Buttons := mkButtons {
  run : option nat;
  runAll : option nat;
  restart : option nat;
  restartAll : option nat
}.

Record CellUI := mkCellUI {
  ui_cell : nat;
  ui_editor : nat;
  ui_output : nat;
  buttons : Buttons
}.

Record CellDOMItem := mkItem {
  id : string;
  placeholders : Placeholders;
  ui : option CellUI
}.

(** [Options] (./options), as far as this file reads it.  Of the
    CodeMirror configuration only two things matter here: whether it has
    a [theme], and whether the editor made from it is read-only. *)
Record CodeMirrorConfig := mkCodeMirrorConfig {
  theme : option string;
  readOnly : bool
}.

Record Options := mkOptions {
  mountRunButton : bool;
  mountRunAllButton : bool;
  mountRestartButton : bool;
  mountRestartallButton : bool;
  codeMirrorConfig : option CodeMirrorConfig
}.

(** [buildButton]; gives the button and the parent with the button
    appended. *)
Definition buildButton (parent : Element) (classSlug text title : string)
    (onClickCb : option Handler) : UI (Element * Element) :=
  btn ← createElement "button";
  let btn := classList_add ["thebe-button"; "thebe-" +:+ classSlug +:+ "-button"] btn in
  let btn := with_textContent text btn in
  let btn := setAttribute "title" title btn in
  let btn := with_onclick (default (LogDebug classSlug) onClickCb) btn in
  mret (btn, append btn parent).

(** [buildButtonBusySpinner]; gives the spinner and the parent with the
    spinner appended. *)
Definition buildButtonBusySpinner (parent : Element) : UI (Element * Element) :=
  outer ← createElement "div";
  let outer := classList_add ["thebe-busy"] outer in
  inner ← createElement "div";
  let inner := classList_add ["thebe-busy-spinner"] inner in
  let outer := append inner outer in
  mret (outer, append outer parent).

(** [x || 'python'] on the result of [getAttribute] *)
Definition or_default (x : option string) (d : string) : string :=
  match x with
  | Some v => if bool_decide (v = "") then d else v
  | None => d
  end.

(** [Boolean(x)] on the result of [getAttribute] *)
Definition Boolean (x : option string) : bool :=
  match x with
  | Some v => negb (bool_decide (v = ""))
  | None => false
  end.

(** [setupCodemirror].  The editor itself belongs to CodeMirror: its
    creation is recorded, what it puts below [el] is not followed.  The
    editor is read-only when CodeMirror's [readOnly] option is set, which
    the settings added here (they say [readyOnly]) do not touch. *)
Definition setupCodemirror (options : Options) (it : CellDOMItem)
    (cell : ThebeCell) (el : Element) : UI unit :=
  b ← get;
  let sourceEl := deref (source (placeholders it)) b in
  let mode := or_default (sourceEl ≫= getAttribute "data-language") "python" in
  let isReadOnly := Boolean (sourceEl ≫= getAttribute "data-readonly") in
  match codeMirrorConfig options ≫= theme with
  | Some t => emit (EImport ("codemirror/theme/" +:+ t +:+ ".css"))
  | None => mret ()
  end;;
  emit (ENewCodeMirror (handle el) (cell_source cell) mode isReadOnly);;
  emit (EModeEnsure mode);;
  if default false (readOnly <$> codeMirrorConfig options) then
    match ui it with
    | Some u =>
        modify (ui_editor u) (setAttribute "data-readonly" "true");;
        modify (ui_cell u) (setAttribute "data-readonly" "true")
    | None => mret ()
    end
  else mret ().

Section Render.
Context {NB : Type} `{!ThebeNotebook NB}.

Definition buildCellUI (options : Options) (it : CellDOMItem) (notebook : NB)
    (cell : ThebeCell) : UI CellDOMItem :=
  box ← createElement "div";
  let box := classList_add ["thebe-cell"] box in
  let box := setAttribute "id" (id it) box in
  editor ← createElement "div";
  let editor := classList_add ["thebe-input"] editor in
  let box := append editor box in
  setupCodemirror options it cell editor;;
  '(run, box) ←
    (if mountRunButton options then
       '(btn, box) ← buildButton box "run" "run" "run this cell"
                                 (Some (RunCell (cell_id cell)));
       mret (Some (handle btn), box)
     else mret (None, box));
  '(runAll, box) ←
    (if mountRunAllButton options then
       '(btn, box) ← buildButton box "runall" "run all" "run all cells"
                                 (Some (RunAllCells (cell_id cell)));
       mret (Some (handle btn), box)
     else mret (None, box));
  '(restart, box) ←
    (if mountRestartButton options then
       '(btn, box) ← buildButton box "restart" "restart" "restart the kernel"
                                 (Some (RestartKernel (cell_id cell)));
       mret (Some (handle btn), box)
     else mret (None, box));
  '(restartAll, box) ←
    (if mountRestartallButton options then
       '(btn, box) ← buildButton box "restartall" "restart & run all"
                                 "restart the kernel and run all cells" None;
       mret (Some (handle btn), box)
     else mret (None, box));
  '(_, box) ← buildButtonBusySpinner box;
  '(out, box) ←
    match output (placeholders it) with
    | Some o => mret (o, box)
    | None =>
        o ← createElement "div";
        let o := classList_add ["thebe-output"] o in
        mret (handle o, append o box)
    end;
  replaceWith (source (placeholders it)) box;;
  emit (EAttachToDOM (cell_id cell) out);;
  mret {| id := id it;
          placeholders := placeholders it;
          ui := Some {| ui_cell := handle box;
                        ui_editor := handle editor;
                        ui_output := out;
                        buttons := {| run := run; runAll := runAll;
                                      restart := restart;
                                      restartAll := restartAll |} |} |}.

(** The callback [renderAllCells] maps over the items. *)
Definition renderCell (options : Options) (notebook : NB) (it : CellDOMItem)
    : UI CellDOMItem :=
  match getCellById notebook (id it) with
  | None => mret it
  | Some cell => buildCellUI options it notebook cell
  end.

(** [items.map(f)] for an [f] with effects: the items are visited in
    order. *)
Fixpoint map_in_order {A B} (f : A → UI B) (l : list A) : UI (list B) :=
  match l with
  | [] => mret []
  | x :: l' =>
      y ← f x;
      ys ← map_in_order f l';
      mret (y :: ys)
  end.

Definition renderAllCells (options : Options) (notebook : NB)
    (items : list CellDOMItem) : UI (list CellDOMItem) :=
  map_in_order (renderCell options notebook) items.

End Render.

End UI.

(** ** Sample notebooks, servers and pages *)

Module Samples.
Import Eff ThebeCore Notebook.

(** A kernel that fails on the source [raise] and on nothing else. *)
Definition raising_kernel (source : string) : option IError :=
  if bool_decide (source = "raise") then Some (mkError "Exception" "raised") else None.

Definition cell_a := mkCell "a" "1 + 1".
Definition cell_b := mkCell "b" "2 + 2".
Definition cell_c := mkCell "c" "raise".

(** Three cells, the last of which fails. *)
Definition three_cells : SpecNotebook.t :=
  SpecNotebook.mk [cell_a; cell_b; cell_c] raising_kernel [] true.

Definition hooked : NotebookExecuteOptions :=
  {| stopOnError := None;
     before := Some (callback "before");
     after := Some (callback "after");
     preprocessor := None |}.

Definition is_a_or_b (c : ThebeCell) : bool :=
  bool_decide (cell_id c = "a") || bool_decide (cell_id c = "b").

Definition is_a_or_c (c : ThebeCell) : bool :=
  bool_decide (cell_id c = "a") || bool_decide (cell_id c = "c").

(** What a run of four cells returns when it goes on after errors, the
    second and the fourth cell fail, and the third gives nothing. *)
Definition mixed_returns : list (option IThebeCellExecuteReturn) :=
  [ Some (mkReturn "a" None);
    Some (mkReturn "b" (Some (mkError "Exception" "raised")));
    None;
    Some (mkReturn "d" (Some (mkError "Exception" "raised"))) ].

(** The notebook has been set. *)
Definition loaded : World (NB:=SpecNotebook.t) :=
  after_actions [DoSetNotebook three_cells].

(** The notebook has been set and run once, in full. *)
Definition ran_all : World (NB:=SpecNotebook.t) :=
  after_actions [DoSetNotebook three_cells; DoExecuteAll None].

End Samples.

Module SessionSamples.
Import Eff Session.

Definition python3 := mkKernelSpec "Python 3" "python".
Definition ir := mkKernelSpec "R" "R".

(** A server that has no session to give and knows two kernels. *)
Definition no_session_server : ThebeServer :=
  {| startNewSession := λ _, Resolves None;
     getKernelSpecs := Resolves (mkKernelSpecs [("python3", python3); ("ir", ir)]) |}.

Definition connected : ServerContext :=
  {| config := Some (mkConfig {["kernelName" := "python3"]});
     server := Some no_session_server;
     serverReady := true |}.

(** The server connection does not exist yet. *)
Definition unconnected : ServerContext :=
  {| config := None; server := None; serverReady := false |}.

Definition default_props : Props :=
  {| start_prop := true; name := "default"; shutdownOnUnmount := false |}.

Definition fresh : World := {| state := ThebeSessionProvider; trace := [] |}.

Definition live_session : ThebeSession :=
  {| session_id := "s1"; restart_settles := Resolves ();
     shutdown_settles := Resolves () |}.

(** A session has been started and is ready. *)
Definition running : World :=
  {| state := {| starting := false; doRestart := false; restarting := false;
                 session := Some live_session; ready := true; error := None |};
     trace := [] |}.

End SessionSamples.

Module UISamples.
Import ThebeCore UI.

(** A page with two source placeholders and no output placeholder. *)
Definition placeholder : Element :=
  {| handle := 0; tagName := "pre";
     attributes := [("data-executable", "true"); ("data-language", "python")];
     classList := []; visibility := ""; textContent := "1 + 1";
     onclick := None; children := [] |}.

Definition stray_placeholder : Element :=
  {| handle := 1; tagName := "pre";
     attributes := [("data-executable", "true")];
     classList := []; visibility := ""; textContent := "2 + 2";
     onclick := None; children := [] |}.

Definition page : Browser :=
  {| document := [placeholder; stray_placeholder]; detached := [];
     next_handle := 2; timers := []; now := 0; calls := [] |}.

(** A notebook whose only cell has the id of the first placeholder's item. *)
Definition one_cell : SpecNotebook.t :=
  SpecNotebook.mk [mkCell "cell-1" "1 + 1"] (λ _, None) [] true.

Definition found_item : CellDOMItem :=
  {| id := "cell-1"; placeholders := mkPlaceholders 0 None; ui := None |}.

(** An item whose id is the id of no cell of the notebook. *)
Definition stray_item : CellDOMItem :=
  {| id := "cell-9"; placeholders := mkPlaceholders 1 None; ui := None |}.

Definition all_buttons : Options :=
  {| mountRunButton := true; mountRunAllButton := true;
     mountRestartButton := true; mountRestartallButton := true;
     codeMirrorConfig := None |}.

(** The page once its cells have been rendered. *)
Definition rendered : Browser :=
  (renderAllCells all_buttons one_cell [found_item; stray_item] page).2.

(** The busy indicator [buildCellUI] has put into the cell. *)
Definition spinner : Element :=
  {| handle := 8; tagName := "div"; attributes := [];
     classList := ["thebe-busy"]; visibility := ""; textContent := "";
     onclick := None;
     children := [ {| handle := 9; tagName := "div"; attributes := [];
                      classList := ["thebe-busy-spinner"]; visibility := "";
                      textContent := ""; onclick := None; children := [] |} ] |}.

End UISamples.

(** ** Vocabulary for further properties of the hook *)

Module ErrorEntries.
Import ThebeCore Notebook.

(** The entry [e] as it is found [n] places further on. *)
Definition shifted (n : nat) (e : IThebeNotebookError) : IThebeNotebookError :=
  mkNotebookError (err_return e) (n + index e).

(** The entries [findErrors] gives, the empty list standing for null. *)
Definition entries (execReturns : list (option IThebeCellExecuteReturn))
    : list IThebeNotebookError :=
  default [] (findErrors execReturns).

End ErrorEntries.

Module MoreSamples.
Import Eff ThebeCore Notebook Samples.

(** A notebook whose every run is rejected, as when the kernel is gone. *)
Record Unreachable := mkUnreachable { unreachable_cells : list ThebeCell }.

#[global] Instance unreachable_notebook : ThebeNotebook Unreachable := {|
  cells := unreachable_cells;
  isAttached := λ _, false;
  nb_executeAll := λ _ _ nb, (Rejects "no kernel", nb);
  nb_executeCells := λ _ _ _ nb, (Rejects "no kernel", nb);
  nb_clear := λ nb, nb;
  getCellById := λ nb id,
    List.find (λ c, bool_decide (cell_id c = id)) (unreachable_cells nb)
|}.

Definition unreachable : Unreachable := mkUnreachable [cell_a; cell_b].

Definition unreachable_loaded : World (NB:=Unreachable) :=
  after_actions [DoSetNotebook unreachable].

(** Cell [b] has been made to fail as well. *)
Definition two_failures : SpecNotebook.t :=
  SpecNotebook.mk [cell_a; mkCell "b" "raise"; cell_c] raising_kernel [] true.

(** Go on after an error. *)
Definition keep_going : NotebookExecuteOptions :=
  {| stopOnError := Some false; before := None; after := None;
     preprocessor := None |}.

(** The three cells have been run, and then the notebook with two failing
    cells has been set. *)
Definition ran_then_changed : World (NB:=SpecNotebook.t) :=
  after_actions [DoSetNotebook three_cells; DoExecuteAll None;
                 DoSetNotebook two_failures].

End MoreSamples.

(** ** Histories of the session provider *)

Module SessionHistory.
Import Eff Session.

(** A promise the provider has put a callback on, with the way it is going
    to settle: the answer to a session request, to a query for the kernel
    specifications, to the restart asked for by the restart effect, and to
    a shutdown. *)
Inductive Promise :=
| SessionPromise (srv : ThebeServer) (answer : Settled (option ThebeSession))
| SpecsPromise (answer : Settled KernelSpecs)
| RestartPromise (answer : Settled unit)
| ShutdownPromise (answer : Settled unit).

(** The provider between two steps: its state with what it has done so
    far, the promises that have not settled, oldest first, and the
    [session] and [shutdownOnUnmount] of the render in which the effect on
    [session] last ran, which its cleanup is going to use. *)
Record Provider := mkProviderRun {
  world : World;
  pending : list Promise;
  effect_session : option ThebeSession;
  effect_shutdown : bool
}.

(** [startSession], as far as it runs before the server answers. *)
Definition request_session (ctx : ServerContext) (props : Props)
    : M (list Promise) :=
  setStarting true;;
  match server ctx with
  | None => mret []
  | Some srv =>
      emit (EStartNewSession (session_request ctx props));;
      mret [SessionPromise srv
              (startNewSession srv (session_request ctx props))]
  end.

(** The callback on the promise of [startNewSession], as far as it runs
    before the kernel specifications arrive. *)
Definition session_answered (srv : ThebeServer) (sesh : option ThebeSession)
    : M (list Promise) :=
  setStarting false;;
  match sesh with
  | None =>
      emit EGetKernelSpecs;;
      mret [SpecsPromise (getKernelSpecs srv)]
  | Some s =>
      setSession (Some s);;
      setReady true;;
      mret []
  end.

(** The callback on a promise that has settled.  No promise has a callback
    for its rejection. *)
Definition settle (p : Promise) : M (list Promise) :=
  match p with
  | SessionPromise srv (Resolves sesh) => session_answered srv sesh
  | SpecsPromise (Resolves specs) =>
      setError (could_not_start specs);;
      mret []
  | RestartPromise (Resolves _) =>
      setRestarting false;;
      mret []
  | ShutdownPromise (Resolves _) =>
      setReady false;;
      setSession None;;
      mret []
  | _ => mret []
  end.

(** The cleanup of the effect on [session]:
    [if (shutdownOnUnmount) session?.shutdown().then(...)], on the session
    of the render in which the effect ran. *)
Definition cleanup (seen : option ThebeSession) (shutdownOnUnmount : bool)
    : M (list Promise) :=
  if shutdownOnUnmount then
    match seen with
    | Some sess =>
        emit (ESessionShutdown sess);;
        mret [ShutdownPromise (shutdown_settles sess)]
    | None => mret []
    end
  else mret [].

(** What can happen to the provider.  The operations it hands out in its
    context are called on the state of the last render.  An effect may run
    after any step: React runs it after a render in which one of its
    dependencies has changed, which is one of these.  A promise that is
    pending may settle at any step, in any order. *)
Inductive Action :=
| DoStart (ctx : ServerContext) (props : Props)
| DoAutoStart (ctx : ServerContext) (props : Props)
| DoRestart
| DoServiceRestart
| DoShutdown
| DoSessionEffect (props : Props)
| DoUnmount
| Settle (k : nat).

(** What a step does at once, and the promises it leaves pending. *)
Definition act (a : Action) (r : Provider) : M (list Promise) :=
  match a with
  | DoStart ctx props =>
      s ← get;
      match session s with
      | Some sess =>
          if ready s then
            emit (ESessionRestart sess);;
            mret []
          else request_session ctx props
      | None => request_session ctx props
      end
  | DoAutoStart ctx props =>
      s ← get;
      if bool_decide (server ctx = None) || negb (serverReady ctx)
         || negb (starting s) || negb (start_prop props)
      then mret []
      else request_session ctx props
  | DoRestart =>
      restart;;
      mret []
  | DoServiceRestart =>
      s ← get;
      if doRestart s then
        setDoRestart false;;
        match session s with
        | Some sess =>
            emit (ESessionRestart sess);;
            mret [RestartPromise (restart_settles sess)]
        | None =>
            setRestarting false;;
            mret []
        end
      else mret []
  | DoShutdown =>
      s ← get;
      match session s with
      | Some sess =>
          emit (ESessionShutdown sess);;
          mret [ShutdownPromise (shutdown_settles sess)]
      | None => mret []
      end
  | DoSessionEffect _ | DoUnmount =>
      cleanup (effect_session r) (effect_shutdown r)
  | Settle k =>
      match pending r !! k with
      | Some p => settle p
      | None => mret []
      end
  end.

(** The promises an outcome leaves pending. *)
Definition promised (o : Outcome ProviderState Effect (list Promise))
    : list Promise :=
  match o with
  | Returned l _ => l
  | _ => []
  end.

Definition perform (a : Action) (r : Provider) : Provider :=
  let o := act a r (world r) in
  {| world := world_after o;
     pending := match a with
                | Settle k => delete k (pending r)
                | _ => pending r
                end ++ promised o;
     effect_session := match a with
                       | DoSessionEffect _ => session (state (world r))
                       | _ => effect_session r
                       end;
     effect_shutdown := match a with
                        | DoSessionEffect props => shutdownOnUnmount props
                        | _ => effect_shutdown r
                        end |}.

(** The provider once mounted: the effect on [session] has run without a
    session, so that its cleanup has nothing to shut down whatever
    [shutdownOnUnmount] was. *)
Definition mounted : Provider :=
  {| world := {| state := ThebeSessionProvider; trace := [] |};
     pending := []; effect_session := None; effect_shutdown := false |}.

(** The provider after a history of steps, oldest first. *)
Definition after_actions (history : list Action) : Provider :=
  foldl (λ r a, perform a r) mounted history.

(** [start()] is not called. *)
Definition no_start (a : Action) : bool :=
  match a with
  | DoStart _ _ => false
  | _ => true
  end.

(** A session is requested from the server. *)
Definition is_request (e : Effect) : bool :=
  match e with
  | EStartNewSession _ => true
  | _ => false
  end.

End SessionHistory.

Module MoreSessionSamples.
Import Eff Session SessionSamples.

(** A server that gives [live_session]. *)
Definition giving_server : ThebeServer :=
  {| startNewSession := λ _, Resolves (Some live_session);
     getKernelSpecs := Resolves (mkKernelSpecs [("python3", python3)]) |}.

Definition serving : ServerContext :=
  {| config := None; server := Some giving_server; serverReady := true |}.

(** A server whose every answer is a rejection. *)
Definition failing_server : ThebeServer :=
  {| startNewSession := λ _, Rejects "connection lost";
     getKernelSpecs := Rejects "connection lost" |}.

Definition failing : ServerContext :=
  {| config := None; server := Some failing_server; serverReady := true |}.

(** A server with no session to give and no answer about its kernels. *)
Definition mute_server : ThebeServer :=
  {| startNewSession := λ _, Resolves None;
     getKernelSpecs := Rejects "connection lost" |}.

Definition mute : ServerContext :=
  {| config := None; server := Some mute_server; serverReady := true |}.

(** A start has failed for want of a session and left its message. *)
Definition failed_start : World :=
  world_after (startSession connected default_props fresh).

(** A session whose restart is rejected. *)
Definition stubborn_session : ThebeSession :=
  {| session_id := "s2"; restart_settles := Rejects "kernel died";
     shutdown_settles := Rejects "kernel died" |}.

Definition running_stubborn : World :=
  {| state := {| starting := false; doRestart := false; restarting := false;
                 session := Some stubborn_session; ready := true;
                 error := None |};
     trace := [] |}.

End MoreSessionSamples.

(** ** packages/react: useNotebook and useNotebookFromSource *)

Module NotebookRefs.
Import ThebeCore.

(** What a callback ref does when React calls it with a node or with
    null. *)
Inductive RefOutcome :=
| RefAttached (cellId : string) (node : nat)
| RefNothing
| RefTypeError.

(** [(node) => { if (node != null) cells[idx].attachToDOM(node); }]:
    a reference to a cell that is not there cannot be followed. *)
Definition callback_ref (cells : list ThebeCell) (idx : nat) (node : option nat)
    : RefOutcome :=
  match node with
  | None => RefNothing
  | Some n =>
      match cells !! idx with
      | Some c => RefAttached (cell_id c) n
      | None => RefTypeError
      end
  end.

(** [Array(cells.length).fill(null).map((_, idx) => (node) => ...)] *)
Definition make_refs (cells : list ThebeCell) : list (option nat → RefOutcome) :=
  imap (λ idx _, callback_ref cells idx) (replicate (length cells) ()).

(** [opts = { refsForWidgetsOnly: true }] *)
Record Opts := mkOpts { refsForWidgetsOnly : bool }.

Section Load.
Context {NB : Type} `{!ThebeNotebook NB}.

(** [nb.widgets], the cells flagged as widgets. *)
Variable widgets : NB → list ThebeCell.

(** [opts.refsForWidgetsOnly ? nb?.widgets ?? [] : nb?.cells ?? []] *)
Definition ref_cells (opts : Opts) (nb : option NB) : list ThebeCell :=
  if refsForWidgetsOnly opts
  then default [] (widgets <$> nb)
  else default [] (cells <$> nb).

(** The state the two hooks add to, or read from, [useNotebookBase]. *)
Record LoadState := mkLoad {
  loading : bool;
  refs : list (option nat → RefOutcome);
  notebook : option NB
}.

Definition not_loaded : LoadState :=
  {| loading := false; refs := []; notebook := None |}.

(** [setLoading(true)] at the start of the effect. *)
Definition begin_load (s : LoadState) : LoadState :=
  {| loading := true; refs := refs s; notebook := notebook s |}.

(** What both hooks do with the notebook once they have it:
    [setRefs(...); setNotebook(nb); setLoading(false)]. *)
Definition on_notebook (opts : Opts) (nb : NB) (s : LoadState) : LoadState :=
  {| loading := false;
     refs := make_refs (ref_cells opts (Some nb));
     notebook := Some nb |}.

(** [cellIds], as the hooks return it. *)
Definition cellIds (opts : Opts) (s : LoadState) : list string :=
  cell_id <$> ref_cells opts (notebook s).

(** The steps of a load.  The callback that receives the notebook belongs
    to the effect that began the load, and reads the [opts] of the render
    in which that effect ran. *)
Inductive Step :=
| BeginLoad
| GotNotebook (opts : Opts) (nb : NB).

Definition step (s : LoadState) (t : Step) : LoadState :=
  match t with
  | BeginLoad => begin_load s
  | GotNotebook opts nb => on_notebook opts nb s
  end.

(** The [opts] with which the notebook of the state was received, if one
    was. *)
Definition loaded_with (steps : list Step) : option Opts :=
  last (omap (λ t, match t with
                   | BeginLoad => None
                   | GotNotebook opts _ => Some opts
                   end) steps).

End Load.

End NotebookRefs.

Module RefSamples.
Import ThebeCore NotebookRefs Samples.

(** Of the cells of a notebook, the first is taken for a widget. *)
Definition first_is_widget (nb : SpecNotebook.t) : list ThebeCell :=
  take 1 (cells nb).

Definition widgets_only : Opts := {| refsForWidgetsOnly := true |}.
Definition all_cells : Opts := {| refsForWidgetsOnly := false |}.

(** A notebook of one cell. *)
Definition one_cell_notebook : SpecNotebook.t :=
  SpecNotebook.mk [cell_a] raising_kernel [] true.

End RefSamples.

(** ** packages/thebe: findCells *)

Module Pairing.
Import UI.

Section FindCells.

(** Whether an element matches a selector is the browser's business. *)
Variable matches : string → Element → bool.

(** [randomId] (./utils): the ids it gives, in the order of the calls. *)
Variable randomId : nat → string.

(** [Array.from(document.querySelectorAll(selector))]: the matching
    elements of the page in tree order. *)
Definition querySelectorAll (selector : string) (b : Browser) : list Element :=
  List.filter (matches selector) (flat_map subtree (document b)).

(** [findCells], when [drawn] ids have been given out before. *)
Definition findCells (selector outputSelector : string) (drawn : nat)
    (b : Browser) : list CellDOMItem :=
  let cellEls := querySelectorAll selector b in
  let outputEls := querySelectorAll outputSelector b in
  imap (λ idx el,
          {| id := randomId (drawn + idx);
             placeholders :=
               {| source := handle el;
                  output := if bool_decide (idx < length outputEls)
                            then handle <$> outputEls !! idx
                            else None |};
             ui := None |})
       cellEls.

End FindCells.

End Pairing.

(** ** Vocabulary for further properties of the cell user interface *)

Module UIFacts.
Import UI.

(** The class the busy indicator is looked up by, dot included. *)
Definition no_dotted_class (e : Element) : Prop := ".thebe-busy" ∉ classList e.

(** All elements of the page satisfy [P]. *)
Definition page_all (P : Element → Prop) (b : Browser) : Prop :=
  Forall P (flat_map subtree (document b)).

(** All elements at and below [e] satisfy [P]. *)
Definition tree_all (P : Element → Prop) (e : Element) : Prop :=
  Forall P (subtree e).

(** From a browser in which [I] holds, [m] gives a result of which [Q]
    holds and leaves a browser in which [I] holds. *)
Definition keeps {A} (I : Browser → Prop) (m : UI A) (Q : A → Prop) : Prop :=
  ∀ b, I b → Q (m b).1 ∧ I (m b).2.

(** The element with every [style.visibility] at and below it unset. *)
Fixpoint blank (e : Element) : Element :=
  {| handle := handle e; tagName := tagName e; attributes := attributes e;
     classList := classList e; visibility := "";
     textContent := textContent e; onclick := onclick e;
     children := map blank (children e) |}.

(** The browser with other pending timers. *)
Definition with_timers (ts : list (nat * Task)) (b : Browser) : Browser :=
  {| document := document b; detached := detached b;
     next_handle := next_handle b; timers := ts; now := now b;
     calls := calls b |}.

End UIFacts.

Module MoreUISamples.
Import ThebeCore UI UISamples.

(** Cells are marked by the attribute [data-executable], outputs by
    [data-output]. *)
Definition by_attribute (selector : string) (e : Element) : bool :=
  bool_decide (is_Some (getAttribute selector e)).

Definition numbered (n : nat) : string :=
  String.concat "" (replicate n "i").

Definition output_placeholder : Element :=
  {| handle := 2; tagName := "div"; attributes := [("data-output", "true")];
     classList := []; visibility := ""; textContent := "";
     onclick := None; children := [] |}.

(** Two source placeholders and one output placeholder. *)
Definition page_with_output : Browser :=
  {| document := [placeholder; output_placeholder; stray_placeholder];
     detached := []; next_handle := 3; timers := []; now := 0; calls := [] |}.


End MoreUISamples.

Module BusySamples.
Import UI.

(** A cell whose busy indicator has the class the lookup asks for, dot
    included. *)
Definition dotted_cell : Element :=
  {| handle := 0; tagName := "div"; attributes := [("id", "c")];
     classList := ["thebe-cell"]; visibility := ""; textContent := "";
     onclick := None;
     children := [ {| handle := 1; tagName := "div"; attributes := [];
                      classList := [".thebe-busy"]; visibility := "";
                      textContent := ""; onclick := None; children := [] |} ] |}.

Definition dotted_page : Browser :=
  {| document := [dotted_cell]; detached := []; next_handle := 2;
     timers := []; now := 0; calls := [] |}.

(** The indicator has been shown. *)
Definition shown : Browser := (setButtonsBusy "c" dotted_page).2.

End BusySamples.

(** * The SQL tokenizer

    The SQL language support that is bundled with the hooks: its tokenizer
    and the table of words it looks identifiers up in. *)

Module Sql.
#[local] Open Scope Z_scope.

(** A JavaScript string, as its UTF-16 code units. *)
Definition JsString : Type := list nat.

Definition codes (s : string) : JsString :=
  Ascii.nat_of_ascii <$> String.list_ascii_of_string s.

Definition fromCharCode (c : Z) : JsString := [Z.to_nat c].

(** [toLowerCase] on the code units a word is read from: letters, digits
    and the underscore. *)
Definition toLowerCase (s : JsString) : JsString :=
  (λ c, if (65 <=? c)%nat && (c <=? 90)%nat then (c + 32)%nat else c) <$> s.

(** ** The input

    The input of a tokenizer is held as the code units that have not been
    read: [next] is the first of them, or -1 at the end; [peek] looks
    further ahead, with -1 past the end; [advance] moves on, and stays at
    the end once there.  [acceptToken] records a token that ends where the
    input stands. *)

Definition next (e : list nat) : Z :=
  match e with
  | [] => -1
  | c :: _ => Z.of_nat c
  end.

Definition peek (offset : nat) (e : list nat) : Z :=
  match e !! offset with
  | Some c => Z.of_nat c
  | None => -1
  end.

Definition advance (n : nat) (e : list nat) : list nat := drop n e.

Record Stream := {
  ahead : list nat;
  token : option (nat * list nat)
}.

Definition acceptToken (v : nat) (e : list nat) : Stream :=
  {| ahead := e; token := Some (v, e) |}.

Definition no_token (e : list nat) : Stream := {| ahead := e; token := None |}.

(** [for (; test(e.next); ) e.advance()], for a test that -1 fails. *)
Fixpoint advance_while (test : Z → bool) (e : list nat) : list nat :=
  match e with
  | [] => []
  | c :: rest => if test (Z.of_nat c) then advance_while test rest else e
  end.

(** ** The terms, numbered as the parser's node names are: [s] is
    [whitespace], [l] [LineComment], [c] [BlockComment], [d] [String],
    [u] [Number], [m] [Bool], [p] [Null], [f] to [y] the brackets and the
    semicolon, [k] [Dot], [x] [Operator], [O] [Punctuation], [w]
    [SpecialVar], [Q] [Identifier], [C] [QuotedIdentifier], [S] [Keyword],
    [q] [Type], [P] [Bits], [T] [Bytes], [U] [Builtin] in the source. *)

Definition whitespace : nat := 36.
Definition LineComment : nat := 1.
Definition BlockComment : nat := 2.
Definition String' : nat := 3.
Definition Number : nat := 4.
Definition Bool : nat := 5.
Definition Null : nat := 6.
Definition ParenL : nat := 7.
Definition ParenR : nat := 8.
Definition BraceL : nat := 9.
Definition BraceR : nat := 10.
Definition BracketL : nat := 11.
Definition BracketR : nat := 12.
Definition Semi : nat := 13.
Definition Dot : nat := 14.
Definition Operator : nat := 15.
Definition Punctuation : nat := 16.
Definition SpecialVar : nat := 17.
Definition Identifier : nat := 18.
Definition QuotedIdentifier : nat := 19.
Definition Keyword : nat := 20.
Definition Type' : nat := 21.
Definition Bits : nat := 22.
Definition Bytes : nat := 23.
Definition Builtin : nat := 24.

(** ** The helpers of the tokenizer *)

Definition z (e : Z) : bool :=
  (65 <=? e) && (e <=? 90) || (97 <=? e) && (e <=? 122)
  || (48 <=? e) && (e <=? 57).

(** [X]: read to the end of a quoted literal, the closing quote [t]
    included, or to the end of the input. [n] says that the character at
    hand is escaped. *)
Fixpoint X_from (n : bool) (e : list nat) (t : Z) (a : bool) : list nat :=
  match e with
  | [] => []
  | c :: rest =>
      if (Z.of_nat c =? t) && negb n then rest
      else X_from (a && negb n && (92 =? Z.of_nat c)) rest t a
  end.

Definition X (e : list nat) (t : Z) (a : bool) : list nat :=
  X_from false e t a.

(** [B]: read a word, adding what is read to [t] when there is a [t]. *)
Fixpoint B (e : list nat) (t : option JsString)
    : option JsString * list nat :=
  match e with
  | [] => (t, [])
  | c :: rest =>
      if (95 =? Z.of_nat c) || z (Z.of_nat c)
      then B rest ((λ t, t ++ fromCharCode (Z.of_nat c)) <$> t)
      else (t, e)
  end.

(** [J]: read binary digits, and the closing quote [t] when there is one. *)
Definition J (e : list nat) (t : option Z) : list nat :=
  let e := advance_while (λ c, (48 =? c) || (49 =? c)) e in
  match t with
  | Some t => if negb (t =? 0) && (next e =? t) then advance 1 e else e
  | None => e
  end.

(** [j]: read the rest of a number; [t] says that the dot has been met. *)
Fixpoint j_digits (e : list nat) (t : bool) : list nat :=
  match e with
  | [] => []
  | c :: rest =>
      if 46 =? Z.of_nat c then
        if t then e else j_digits rest true
      else if (Z.of_nat c <? 48) || (57 <? Z.of_nat c) then e
      else j_digits rest t
  end.

Definition j (e : list nat) (t : bool) : list nat :=
  let e := j_digits e t in
  if (69 =? next e) || (101 =? next e) then
    let e := advance 1 e in
    let e := if negb (negb (43 =? next e) && negb (45 =? next e))
             then advance 1 e else e in
    advance_while (λ c, (48 <=? c) && (c <=? 57)) e
  else e.

(** [R]: read to the end of the line. *)
Definition R (e : list nat) : list nat :=
  advance_while (λ c, negb ((c <? 0) || (10 =? c))) e.

(** [Z] in the source: whether the code unit [e] is in the string [t]. *)
Definition Z' (e : Z) (t : JsString) : bool :=
  existsb (λ c, Z.of_nat c =? e) t.

Definition L : JsString := [32; 9; 13; 10]%nat.

(** ** The table of words *)

(** [s.split(sep)] for a separator of one code unit. *)
Fixpoint split (sep : nat) (s : JsString) : list JsString :=
  match s with
  | [] => [[]]
  | c :: rest =>
      if (c =? sep)%nat then [] :: split sep rest
      else match split sep rest with
           | w :: ws => (c :: w) :: ws
           | [] => [[c]]
           end
  end.

(** One of the loops of [V]: every word of [s] that is not empty is given
    the term [v]. *)
Definition set_words (v : nat) (s : JsString) (n : gmap JsString nat)
    : gmap JsString nat :=
  foldl (λ n t, match t with
                | [] => n
                | _ => <[t := v]> n
                end)
        n (split 32 s).

Definition V (e t : JsString) (a : option JsString) : gmap JsString nat :=
  let n : gmap JsString nat := ∅ in
  let n := <[codes "false" := Bool]> n in
  let n := <[codes "true" := Bool]> n in
  let n := <[codes "unknown" := Null]> n in
  let n := <[codes "null" := Null]> n in
  let n := set_words Keyword e n in
  let n := set_words Type' t n in
  set_words Builtin (default [] a) n.

(** The types of standard SQL. *)
Definition D : JsString :=
  codes (
    "array binary bit boolean char character clob date decimal double " +:+
    "float int integer interval large national nchar nclob numeric " +:+
    "object precision real smallint time timestamp varchar varying ").

(** The keywords of standard SQL. *)
Definition I : JsString :=
  codes (
    "absolute action add after all allocate alter and any are as asc " +:+
    "assertion at authorization before begin between both breadth by " +:+
    "call cascade cascaded case cast catalog check close collate " +:+
    "collation column commit condition connect connection constraint " +:+
    "constraints constructor continue corresponding count create cross " +:+
    "cube current current_date current_default_transform_group " +:+
    "current_transform_group_for_type current_path current_role " +:+
    "current_time current_timestamp current_user cursor cycle data day " +:+
    "deallocate declare default deferrable deferred delete depth deref " +:+
    "desc describe descriptor deterministic diagnostics disconnect " +:+
    "distinct do domain drop dynamic each else elseif end end-exec " +:+
    "equals escape except exception exec execute exists exit external " +:+
    "fetch first for foreign found from free full function general get " +:+
    "global go goto grant group grouping handle having hold hour " +:+
    "identity if immediate in indicator initially inner inout input " +:+
    "insert intersect into is isolation join key language last lateral " +:+
    "leading leave left level like limit local localtime " +:+
    "localtimestamp locator loop map match method minute modifies " +:+
    "module month names natural nesting new next no none not of old on " +:+
    "only open option or order ordinality out outer output overlaps " +:+
    "pad parameter partial path prepare preserve primary prior " +:+
    "privileges procedure public read reads recursive redo ref " +:+
    "references referencing relative release repeat resignal restrict " +:+
    "result return returns revoke right role rollback rollup routine " +:+
    "row rows savepoint schema scroll search second section select " +:+
    "session session_user set sets signal similar size some space " +:+
    "specific specifictype sql sqlexception sqlstate sqlwarning start " +:+
    "state static system_user table temporary then timezone_hour " +:+
    "timezone_minute to trailing transaction translation treat trigger " +:+
    "under undo union unique unnest until update usage user using " +:+
    "value values view when whenever where while with without work " +:+
    "write year zone ").

(** ** Dialects *)

Record Dialect := {
  backslashEscapes : bool;
  hashComments : bool;
  spaceAfterDashes : bool;
  slashComments : bool;
  doubleQuotedStrings : bool;
  doubleDollarQuotedStrings : bool;
  unquotedBitLiterals : bool;
  treatBitsAsBytes : bool;
  charSetCasts : bool;
  plsqlQuotingMechanism : bool;
  operatorChars : JsString;
  specialVar : JsString;
  identifierQuotes : JsString;
  words : gmap JsString nat
}.

(** [$] in the source: what a dialect has when it says nothing else. *)
Definition defaults : Dialect :=
  {| backslashEscapes := false; hashComments := false;
     spaceAfterDashes := false; slashComments := false;
     doubleQuotedStrings := false; doubleDollarQuotedStrings := false;
     unquotedBitLiterals := false; treatBitsAsBytes := false;
     charSetCasts := false; plsqlQuotingMechanism := false;
     operatorChars := codes "*+-%<>!=&|~^/";
     specialVar := codes "?";
     identifierQuotes := [34]%nat;
     words := V I D None |}.

(** ** The tokenizer *)

(** The body of a string between doubled dollar signs. *)
Fixpoint dollar_quoted (e : list nat) : list nat :=
  match e with
  | [] => []
  | c :: rest =>
      match rest with
      | [] => e
      | c' :: rest' =>
          if (36 =? Z.of_nat c) && (36 =? Z.of_nat c') then rest'
          else dollar_quoted rest
      end
  end.

(** The body of a block comment; [e] counts the comments that are open. *)
Fixpoint block_comment (e : Z) (t : list nat) : list nat :=
  match t with
  | [] => []
  | a :: rest =>
      match rest with
      | [] => block_comment e rest
      | c :: rest' =>
          if (42 =? Z.of_nat a) && (47 =? Z.of_nat c) then
            if e - 1 =? 0 then rest' else block_comment (e - 1) rest'
          else if (47 =? Z.of_nat a) && (42 =? Z.of_nat c) then
            block_comment (e + 1) rest'
          else block_comment e rest
      end
  end.

(** A string that begins with the name of a character set. *)
Fixpoint charset_cast (e : Dialect) (a : nat) (t : list nat) : Stream :=
  match t with
  | [] => no_token []
  | c :: rest =>
      if (39 =? Z.of_nat c) && (1 <? a)%nat then
        acceptToken String' (X rest 39 (backslashEscapes e))
      else if negb (z (Z.of_nat c)) then no_token t
      else charset_cast e (S a) rest
  end.

(** The quote that closes a PL/SQL literal opened by [t]. *)
Definition closing (t : Z) : Z :=
  if t =? 91 then 93
  else if t =? 123 then 125
  else if t =? 60 then 62
  else if t =? 40 then 41
  else t.

Fixpoint q_quoted (e : list nat) (n : Z) : list nat :=
  match e with
  | [] => []
  | c :: rest =>
      if (Z.of_nat c =? n) && (39 =? peek 1 e) then advance 2 e
      else q_quoted rest n
  end.

Definition hex (r : Z) : bool :=
  (48 <=? r) && (r <=? 57) || (97 <=? r) && (r <=? 102)
  || (65 <=? r) && (r <=? 70).

Definition E (e : Dialect) (t : list nat) : Stream :=
  let n := next t in
  let t := advance 1 t in
  if Z' n L then
    acceptToken whitespace (advance_while (λ c, Z' c L) t)
  else if (36 =? n) && (36 =? next t) && doubleDollarQuotedStrings e then
    acceptToken String' (dollar_quoted t)
  else if (39 =? n) || (34 =? n) && doubleQuotedStrings e then
    acceptToken String' (X t n (backslashEscapes e))
  else if (35 =? n) && hashComments e
          || (47 =? n) && (47 =? next t) && slashComments e then
    acceptToken LineComment (R t)
  else if negb (45 =? n) || negb (45 =? next t)
          || spaceAfterDashes e && negb (32 =? peek 1 t) then
    if (47 =? n) && (42 =? next t) then
      acceptToken BlockComment (block_comment 1 (advance 1 t))
    else if negb (101 =? n) && negb (69 =? n) || negb (39 =? next t) then
      if negb (110 =? n) && negb (78 =? n) || negb (39 =? next t)
         || negb (charSetCasts e) then
        if (95 =? n) && charSetCasts e then charset_cast e 0 t
        else if plsqlQuotingMechanism e && ((113 =? n) || (81 =? n))
                && (39 =? next t) && (0 <? peek 1 t)
                && negb (Z' (peek 1 t) L) then
          let e := peek 1 t in
          acceptToken String' (q_quoted (advance 2 t) (closing e))
        else if 40 =? n then acceptToken ParenL t
        else if 41 =? n then acceptToken ParenR t
        else if 123 =? n then acceptToken BraceL t
        else if 125 =? n then acceptToken BraceR t
        else if 91 =? n then acceptToken BracketL t
        else if 93 =? n then acceptToken BracketR t
        else if 59 =? n then acceptToken Semi t
        else if unquotedBitLiterals e && (48 =? n) && (98 =? next t) then
          acceptToken Bits (J (advance 1 t) None)
        else if negb (98 =? n) && negb (66 =? n)
                || negb (39 =? next t) && negb (34 =? next t) then
          if (48 =? n) && ((120 =? next t) || (88 =? next t))
             || ((120 =? n) || (88 =? n)) && (39 =? next t) then
            let e := 39 =? next t in
            let t := advance_while hex (advance 1 t) in
            let t := if e && (39 =? next t) then advance 1 t else t in
            acceptToken Number t
          else if (46 =? n) && (48 <=? next t) && (next t <=? 57) then
            acceptToken Number (j t true)
          else if 46 =? n then acceptToken Dot t
          else if (48 <=? n) && (n <=? 57) then
            acceptToken Number (j t false)
          else if Z' n (operatorChars e) then
            acceptToken Operator
              (advance_while (λ c, Z' c (operatorChars e)) t)
          else if Z' n (specialVar e) then
            let t := if next t =? n then advance 1 t else t in
            let t := if (39 =? next t) || (34 =? next t) || (96 =? next t)
                     then X (advance 1 t) (next t) false
                     else (B t None).2 in
            acceptToken SpecialVar t
          else if Z' n (identifierQuotes e) then
            acceptToken QuotedIdentifier (X t n false)
          else if (58 =? n) || (44 =? n) then acceptToken Punctuation t
          else if z n then
            let '(r, t) := B t (Some (fromCharCode n)) in
            acceptToken
              (if 46 =? next t then Identifier
               else default Identifier
                      (words e !! toLowerCase (default [] r)))
              t
          else no_token t
        else
          let a := next t in
          let t := advance 1 t in
          if treatBitsAsBytes e
          then acceptToken Bytes (X t a (backslashEscapes e))
          else acceptToken Bits (J t (Some a))
      else acceptToken String' (X (advance 1 t) 39 (backslashEscapes e))
    else no_token (X (advance 1 t) 39 true)
  else acceptToken LineComment (R t).

End Sql.

Module SqlFacts.
Import Sql.
#[local] Open Scope Z_scope.

(** The inside of a quoted literal that the quote [t] closes: code units
    other than the quote, and, where backslashes escape ([a]), a backslash
    with the code unit after it, whatever that is. *)
Inductive Inside (t : nat) (a : bool) : list nat → Prop :=
  | Inside_nil : Inside t a []
  | Inside_unit c body :
      c ≠ t → (a = true → c ≠ 92%nat) → Inside t a body →
      Inside t a (c :: body)
  | Inside_escaped c body :
      a = true → t ≠ 92%nat → Inside t a body →
      Inside t a (92%nat :: c :: body).

Definition letter (c : Z) : bool :=
  (65 <=? c) && (c <=? 90) || (97 <=? c) && (c <=? 122).

(** The test of the loop of [B]. *)
Definition word_unit (c : Z) : bool := (95 =? c) || z c.

(** The words of a string of words, as the loops of [V] see them. *)
Definition words_of (s : JsString) : list JsString :=
  List.filter (λ t, negb (bool_decide (t = []))) (split 32 s).

(** Some dialect with every switch set, to read examples with. *)
Definition everything : Dialect :=
  {| backslashEscapes := true; hashComments := true;
     spaceAfterDashes := true; slashComments := true;
     doubleQuotedStrings := true; doubleDollarQuotedStrings := true;
     unquotedBitLiterals := true; treatBitsAsBytes := true;
     charSetCasts := true; plsqlQuotingMechanism := true;
     operatorChars := codes "*+-%<>!=&|~^/";
     specialVar := codes "?@";
     identifierQuotes := codes "`";
     words := V (codes "select from") (codes "int") (Some (codes "now")) |}.

End SqlFacts.

(** * Messages *)

Module Messaging.

Inductive ServerStatus :=
  | Server_launching | Server_ready | Server_closed | Server_failed
  | Server_unknown.

Inductive SessionStatus := Session_starting | Session_ready | Session_dead.

Inductive KernelStatus := Kernel_starting | Kernel_ready | Kernel_dead.

Inductive NotebookStatus :=
  | Notebook_changed | Notebook_executing | Notebook_completed
  | Notebook_error.

Inductive CellStatus :=
  | Cell_changed | Cell_executing | Cell_completed | Cell_error.

Inductive MessageSubject :=
  | Subject_server | Subject_session | Subject_kernel | Subject_notebook
  | Subject_cell.

(** The string each member of an enum stands for. *)
Definition ServerStatus_value (s : ServerStatus) : string :=
  match s with
  | Server_launching => "launching"
  | Server_ready => "server-ready"
  | Server_closed => "closed"
  | Server_failed => "failed"
  | Server_unknown => "unknown"
  end.

Definition SessionStatus_value (s : SessionStatus) : string :=
  match s with
  | Session_starting => "starting"
  | Session_ready => "ready"
  | Session_dead => "dead"
  end.

Definition KernelStatus_value (s : KernelStatus) : string :=
  match s with
  | Kernel_starting => "starting"
  | Kernel_ready => "ready"
  | Kernel_dead => "dead"
  end.

Definition NotebookStatus_value (s : NotebookStatus) : string :=
  match s with
  | Notebook_changed => "changed"
  | Notebook_executing => "executing"
  | Notebook_completed => "completed"
  | Notebook_error => "error"
  end.

Definition CellStatus_value (s : CellStatus) : string :=
  match s with
  | Cell_changed => "changed"
  | Cell_executing => "executing"
  | Cell_completed => "completed"
  | Cell_error => "error"
  end.

Definition MessageSubject_value (s : MessageSubject) : string :=
  match s with
  | Subject_server => "server"
  | Subject_session => "session"
  | Subject_kernel => "kernel"
  | Subject_notebook => "notebook"
  | Subject_cell => "cell"
  end.

(** The [status] of a message is a member of any of the five enums. *)
Inductive Status :=
  | OfServer (s : ServerStatus)
  | OfSession (s : SessionStatus)
  | OfKernel (s : KernelStatus)
  | OfNotebook (s : NotebookStatus)
  | OfCell (s : CellStatus).

Definition Status_value (s : Status) : string :=
  match s with
  | OfServer s => ServerStatus_value s
  | OfSession s => SessionStatus_value s
  | OfKernel s => KernelStatus_value s
  | OfNotebook s => NotebookStatus_value s
  | OfCell s => CellStatus_value s
  end.

(** The subject a status is about. *)
Definition about (s : Status) : MessageSubject :=
  match s with
  | OfServer _ => Subject_server
  | OfSession _ => Subject_session
  | OfKernel _ => Subject_kernel
  | OfNotebook _ => Subject_notebook
  | OfCell _ => Subject_cell
  end.

Record MessageCallbackArgs := {
  subject : option MessageSubject;
  msg_id : option string;
  status : string;
  message : string
}.

End Messaging.

(** * Properties *)

Import Eff ThebeCore.

(** ** Error collection *)

Section FindErrors.
Import Notebook.

Lemma failing_entries_from l : failing_entries l = failing_from 0 l.
Proof. reflexivity. Qed.

Lemma failing_from_cons i x l :
  failing_from i (x :: l) =
  match recorded (i, x) with
  | Some e => e :: failing_from (S i) l
  | None => failing_from (S i) l
  end.
Proof.
  unfold failing_from. rewrite imap_cons. cbn [omap list_omap].
  rewrite Nat.add_0_r.
  replace (imap ((λ j y, (i + j, y)) ∘ S) l)
    with (imap (λ j (y : option IThebeCellExecuteReturn), (S i + j, y)) l).
  - reflexivity.
  - apply imap_ext. intros j y _. cbn. f_equal. lia.
Qed.

Lemma findErrors_step_recorded acc x i :
  findErrors_step acc x i =
  match recorded (i, x) with
  | Some e => Some (default [] acc ++ [e])
  | None => acc
  end.
Proof.
  unfold findErrors_step, recorded.
  destruct x as [r|]; [|done].
  destruct (carries_error (Some r)); [|done].
  by destruct acc.
Qed.

Lemma reduce_from_findErrors l : ∀ i acc,
  reduce_from findErrors_step l i acc = extend acc (failing_from i l).
Proof.
  induction l as [|x l IH]; intros i acc; [done|].
  cbn [reduce_from]. rewrite IH, failing_from_cons, findErrors_step_recorded.
  destruct (recorded (i, x)) as [e|]; [|done].
  cbn. destruct (failing_from (S i) l) as [|e' found]; cbn; [done|].
  by rewrite <- app_assoc.
Qed.

Lemma findErrors_failing_entries l :
  findErrors l = match failing_entries l with [] => None | errs => Some errs end.
Proof.
  unfold findErrors, reduce. rewrite reduce_from_findErrors.
  change (failing_entries l) with (failing_from 0 l).
  by destruct (failing_from 0 l).
Qed.

Lemma elem_of_failing_from e l i :
  e ∈ failing_from i l ↔
  ∃ j, index e = i + j ∧ l !! j = Some (Some (err_return e))
       ∧ is_Some (ret_error (err_return e)).
Proof.
  unfold failing_from. rewrite list_elem_of_omap. split.
  - intros [[k x] [Hin Hrec]].
    apply elem_of_lookup_imap in Hin as (j & y & Heq & Hj).
    injection Heq as -> ->. unfold recorded in Hrec.
    destruct y as [r|]; [|done].
    destruct (carries_error (Some r)) eqn:Hc; [|done].
    injection Hrec as <-. exists j. cbn. split_and!; [done..|].
    cbn in Hc. by apply bool_decide_eq_true in Hc.
  - intros (j & Hi & Hj & Herr). exists (i + j, Some (err_return e)). split.
    + apply elem_of_lookup_imap. by exists j, (Some (err_return e)).
    + unfold recorded. cbn. rewrite bool_decide_eq_true_2 by done.
      destruct e as [r k]; cbn in *. by subst.
Qed.

Lemma failing_from_ascending l : ∀ i,
  StronglySorted lt (index <$> failing_from i l)
  ∧ Forall (λ k, i ≤ k) (index <$> failing_from i l).
Proof.
  induction l as [|x l IH]; intros i.
  - split; constructor.
  - rewrite failing_from_cons. destruct (IH (S i)) as [Hs Hb].
    assert (Forall (λ k, i ≤ k) (index <$> failing_from (S i) l)) as Hb'.
    { eapply Forall_impl; [exact Hb|]. cbn. lia. }
    destruct (recorded (i, x)) as [e|] eqn:He; [|done].
    assert (index e = i) as Hi.
    { unfold recorded in He. destruct x as [r|]; [|done].
      destruct (carries_error (Some r)); [|done]. by injection He as <-. }
    cbn [fmap list_fmap]. split.
    + constructor; [done|]. eapply Forall_impl; [exact Hb|]. cbn. lia.
    + constructor; [lia|done].
Qed.

Lemma failing_entries_nil l :
  failing_entries l = [] ↔ Forall (λ r, carries_error r = false) l.
Proof.
  change (failing_entries l) with (failing_from 0 l). generalize 0.
  induction l as [|x l IH]; intros i.
  - split; [constructor|done].
  - rewrite failing_from_cons, Forall_cons. unfold recorded at 1.
    destruct x as [r|].
    + destruct (carries_error (Some r)).
      * split; [done|]. by intros [? _].
      * rewrite IH. split; [by intros ?|by intros [_ ?]].
    + rewrite IH. split; [by intros ?|by intros [_ ?]].
Qed.

Lemma findErrors_entry execReturns errs e :
  findErrors execReturns = Some errs → e ∈ errs →
  execReturns !! index e = Some (Some (err_return e)).
Proof.
  rewrite findErrors_failing_entries. intros Herrs He.
  assert (e ∈ failing_from 0 execReturns) as Hin.
  { unfold failing_entries in Herrs.
    destruct (failing_from 0 execReturns); [done|]. by injection Herrs as <-. }
  apply elem_of_failing_from in Hin as (j & Hj & Hl & _). by rewrite Hj.
Qed.

End FindErrors.

(** ** The hook's operations *)

Section HookOperations.
Import Notebook.
Context {NB : Type} `{!ThebeNotebook NB}.

Implicit Types (w : World (NB:=NB)) (nb : NB)
  (options : option NotebookExecuteOptions).

(** Unfolds the monadic plumbing of an operation, so that it computes. *)
Ltac run_hook :=
  unfold executeAll, executeAll_dispatch, executeSome, executeSome_dispatch,
    clear, reset, on_executed, notebook_executeAll, notebook_executeCells,
    mutate_notebook, setExecuting, setExecuted, setErrors, setNotebook, call;
  unfold mbind, mret, M_bind, M_ret, bind, ret, throw, emit, get, put, await;
  cbn.

Lemma on_executed_run options execReturns w :
  on_executed options execReturns w =
  Returned execReturns
    {| state := {| notebook := notebook (state w);
                   executing := false;
                   executed := true;
                   errors := match findErrors execReturns with
                             | Some errs => Some errs
                             | None => errors (state w)
                             end |};
       trace := trace w ++ calls (options ≫= after)
                  ++ sets_errors (findErrors execReturns)
                  ++ [ESetExecuted true; ESetExecuting false] |}.
Proof.
  unfold on_executed. generalize (options ≫= after) (findErrors execReturns).
  intros [f|] [errs|]; run_hook;
    repeat rewrite <- app_assoc; cbn; try rewrite app_nil_r; reflexivity.
Qed.

Lemma executeAll_dispatch_run options w nb :
  notebook (state w) = Some nb →
  let stop := default true (options ≫= stopOnError) in
  let pre := options ≫= preprocessor in
  executeAll_dispatch options w =
  Returned (nb_executeAll stop pre nb).1
    {| state := {| notebook := Some (nb_executeAll stop pre nb).2;
                   executing := true;
                   executed := executed (state w);
                   errors := errors (state w) |};
       trace := trace w ++ calls (options ≫= before)
                  ++ [ESetExecuting true; ENotebookExecuteAll stop pre] |}.
Proof.
  intros Hnb stop pre. subst stop pre. unfold executeAll_dispatch.
  generalize (options ≫= before) (default true (options ≫= stopOnError))
    (options ≫= preprocessor).
  intros cb stop pre. run_hook. rewrite Hnb.
  destruct cb as [f|]; cbn; destruct (nb_executeAll stop pre nb) as [p nb'];
    cbn; rewrite ?Hnb; repeat rewrite <- app_assoc; reflexivity.
Qed.

Lemma executeSome_dispatch_run predicate options w nb :
  notebook (state w) = Some nb →
  let ids := cell_id <$> List.filter predicate (cells nb) in
  let stop := default true (options ≫= stopOnError) in
  let pre := options ≫= preprocessor in
  executeSome_dispatch predicate options w =
  Returned (nb_executeCells ids stop pre nb).1
    {| state := {| notebook := Some (nb_executeCells ids stop pre nb).2;
                   executing := true;
                   executed := executed (state w);
                   errors := errors (state w) |};
       trace := trace w ++ calls (options ≫= before)
                  ++ [ESetExecuting true; ENotebookExecuteCells ids stop pre] |}.
Proof.
  intros Hnb ids stop pre. subst ids stop pre. unfold executeSome_dispatch.
  generalize (options ≫= before) (default true (options ≫= stopOnError))
    (options ≫= preprocessor).
  intros cb stop pre. run_hook. rewrite Hnb.
  generalize (cell_id <$> List.filter predicate (cells nb)). intros ids.
  destruct cb as [f|]; cbn; destruct (nb_executeCells ids stop pre nb) as [p nb'];
    cbn; rewrite ?Hnb; repeat rewrite <- app_assoc; reflexivity.
Qed.

Lemma perform_errors_nonempty a w :
  errors (state w) ≠ Some [] → errors (state (perform a w)) ≠ Some [].
Proof.
  assert (∀ options rs w', errors (state w') ≠ Some [] →
            errors (state (world_after (on_executed options rs w'))) ≠ Some [])
    as Hsettle.
  { intros options rs w' Hw'. rewrite on_executed_run. cbn.
    rewrite findErrors_failing_entries.
    by destruct (failing_entries rs). }
  intros Hw. destruct a as [nb|o|p o| | |o|p o|o rs]; cbn [perform].
  - by run_hook.
  - destruct (notebook (state w)) as [nb|] eqn:Hnb.
    + unfold executeAll. unfold mbind at 1, M_bind, bind.
      rewrite (executeAll_dispatch_run o w nb Hnb).
      destruct (nb_executeAll _ _ nb).1 as [rs|r].
      * apply Hsettle. done.
      * done.
    + run_hook. by rewrite Hnb.
  - destruct (notebook (state w)) as [nb|] eqn:Hnb.
    + unfold executeSome. unfold mbind at 1, M_bind, bind.
      rewrite (executeSome_dispatch_run p o w nb Hnb).
      destruct (nb_executeCells _ _ _ nb).1 as [rs|r].
      * apply Hsettle. done.
      * done.
    + run_hook. by rewrite Hnb.
  - run_hook. by destruct (notebook (state w)).
  - by run_hook.
  - destruct (notebook (state w)) as [nb|] eqn:Hnb.
    + by rewrite (executeAll_dispatch_run o w nb Hnb).
    + run_hook. by rewrite Hnb.
  - destruct (notebook (state w)) as [nb|] eqn:Hnb.
    + by rewrite (executeSome_dispatch_run p o w nb Hnb).
    + run_hook. by rewrite Hnb.
  - by apply Hsettle.
Qed.

Lemma reachable_errors_nonempty w : reachable w → errors (state w) ≠ Some [].
Proof.
  induction 1 as [|w a _ IH]; [done|]. by apply perform_errors_nonempty.
Qed.

Lemma reachable_after_actions history : reachable (after_actions history).
Proof.
  unfold after_actions. induction history as [|a history IH] using rev_ind.
  - constructor.
  - rewrite foldl_snoc. by constructor.
Qed.

Lemma executeAll_settles options w nb execReturns :
  notebook (state w) = Some nb →
  (nb_executeAll (default true (options ≫= stopOnError))
                 (options ≫= preprocessor) nb).1 = Resolves execReturns →
  executeAll options w =
  on_executed options execReturns
    (world_after (executeAll_dispatch options w)).
Proof.
  intros Hnb Hp. unfold executeAll. unfold mbind at 1, M_bind, bind.
  rewrite (executeAll_dispatch_run options w nb Hnb), Hp. reflexivity.
Qed.

Lemma executeSome_settles predicate options w nb execReturns :
  notebook (state w) = Some nb →
  (nb_executeCells (cell_id <$> List.filter predicate (cells nb))
                   (default true (options ≫= stopOnError))
                   (options ≫= preprocessor) nb).1 = Resolves execReturns →
  executeSome predicate options w =
  on_executed options execReturns
    (world_after (executeSome_dispatch predicate options w)).
Proof.
  intros Hnb Hp. unfold executeSome. unfold mbind at 1, M_bind, bind.
  rewrite (executeSome_dispatch_run predicate options w nb Hnb), Hp. reflexivity.
Qed.

(** C1. With a notebook set, [executeAll] calls the [before] hook, sets
    [executing] and only then calls the notebook's [executeAll]; when that
    call resolves, the promise [executeAll] returned resolves with the very
    list the notebook gave, after the [after] hook has been called, and
    with [executed] true and [executing] false. *)
Theorem executeAll_runs options w nb :
  notebook (state w) = Some nb →
  let stop := default true (options ≫= stopOnError) in
  let pre := options ≫= preprocessor in
  ∃ w1,
    executeAll_dispatch options w = Returned (nb_executeAll stop pre nb).1 w1
    ∧ executing (state w1) = true
    ∧ trace w1 = trace w ++ calls (options ≫= before)
                   ++ [ESetExecuting true; ENotebookExecuteAll stop pre]
    ∧ ∀ execReturns,
        (nb_executeAll stop pre nb).1 = Resolves execReturns →
        ∃ w2,
          executeAll options w = Returned execReturns w2
          ∧ executed (state w2) = true
          ∧ executing (state w2) = false
          ∧ trace w2 = trace w1 ++ calls (options ≫= after)
                         ++ sets_errors (findErrors execReturns)
                         ++ [ESetExecuted true; ESetExecuting false].
Proof.
  intros Hnb stop pre. eexists. split; [exact (executeAll_dispatch_run options w nb Hnb)|].
  split; [reflexivity|]. split; [reflexivity|].
  intros execReturns Hp. eexists. split.
  - rewrite (executeAll_settles options w nb execReturns Hnb Hp).
    rewrite (executeAll_dispatch_run options w nb Hnb). cbn [world_after].
    apply on_executed_run.
  - split; [reflexivity|]. split; reflexivity.
Qed.

(** C2. [findErrors] gives null when no entry carries an error and otherwise
    the failing entries, each with its position in the list, in list order:
    a list that is not empty and whose indices ascend.  Whatever the
    history of the hook, its [errors] are never the empty list. *)
Theorem findErrors_collects (execReturns : list (option IThebeCellExecuteReturn)) :
  findErrors execReturns
    = match failing_entries execReturns with [] => None | errs => Some errs end
  ∧ (findErrors execReturns = None
     ↔ Forall (λ retval, carries_error retval = false) execReturns)
  ∧ (∀ errs, findErrors execReturns = Some errs →
       errs ≠ []
       ∧ StronglySorted lt (index <$> errs)
       ∧ ∀ e, e ∈ errs ↔
              execReturns !! index e = Some (Some (err_return e))
              ∧ is_Some (ret_error (err_return e)))
  ∧ findErrors execReturns ≠ Some []
  ∧ ∀ history : list Action, errors (state (after_actions history)) ≠ Some [].
Proof.
  pose proof (findErrors_failing_entries execReturns) as Heq.
  split; [exact Heq|]. split; [|split; [|split]].
  - rewrite Heq, <- failing_entries_nil. by destruct (failing_entries execReturns).
  - intros errs Herrs. rewrite Heq in Herrs.
    assert (errs = failing_entries execReturns ∧ errs ≠ []) as [-> Hne].
    { destruct (failing_entries execReturns); [done|]. by injection Herrs as <-. }
    split; [done|]. split.
    + apply (failing_from_ascending execReturns 0).
    + intros e. unfold failing_entries. rewrite elem_of_failing_from. split.
      * intros (j & Hj & Hl & He). rewrite Hj. done.
      * intros [Hl He]. by exists (index e).
  - rewrite Heq. by destruct (failing_entries execReturns).
  - intros history. apply reachable_errors_nonempty, reachable_after_actions.
Qed.

(** C3, as amended.  A run, of all cells or of some, whose results carry no
    error leaves [errors] as it was before the run: unset if it was unset,
    and still holding the entries of the earlier run otherwise. *)
Theorem clean_run_keeps_errors options predicate w nb :
  notebook (state w) = Some nb →
  let stop := default true (options ≫= stopOnError) in
  let pre := options ≫= preprocessor in
  let ids := cell_id <$> List.filter predicate (cells nb) in
  (∀ execReturns,
     (nb_executeAll stop pre nb).1 = Resolves execReturns →
     Forall (λ retval, carries_error retval = false) execReturns →
     ∃ w', executeAll options w = Returned execReturns w'
           ∧ errors (state w') = errors (state w))
  ∧ (∀ execReturns,
       (nb_executeCells ids stop pre nb).1 = Resolves execReturns →
       Forall (λ retval, carries_error retval = false) execReturns →
       ∃ w', executeSome predicate options w = Returned execReturns w'
             ∧ errors (state w') = errors (state w)).
Proof.
  intros Hnb stop pre ids.
  assert (∀ rs, Forall (λ retval, carries_error retval = false) rs →
                findErrors rs = None) as Hclean.
  { intros rs Hrs. rewrite findErrors_failing_entries.
    apply failing_entries_nil in Hrs. by rewrite Hrs. }
  split; intros execReturns Hp Hok; eexists.
  - rewrite (executeAll_settles options w nb execReturns Hnb Hp).
    rewrite (executeAll_dispatch_run options w nb Hnb). cbn [world_after].
    rewrite on_executed_run, (Hclean _ Hok). split; reflexivity.
  - rewrite (executeSome_settles predicate options w nb execReturns Hnb Hp).
    rewrite (executeSome_dispatch_run predicate options w nb Hnb). cbn [world_after].
    rewrite on_executed_run, (Hclean _ Hok). split; reflexivity.
Qed.

(** C5. Without a notebook, [executeAll], [executeSome] and [clear] each
    throw, and nothing else happens. *)
Theorem operations_throw_without_notebook options predicate w :
  notebook (state w) = None →
  executeAll options w = Threw "executeAll called before notebook available" w
  ∧ executeSome predicate options w
    = Threw "executeSome called before notebook available" w
  ∧ clear w = Threw "clear called before notebook available" w.
Proof. intros H. repeat split; run_hook; by rewrite H. Qed.

(** C8. With a notebook set, [clear] has the notebook clear itself and sets
    [executed] to false; [errors] and [executing] stay as they were. *)
Theorem clear_resets_executed_only w nb :
  notebook (state w) = Some nb →
  ∃ w',
    clear w = Returned () w'
    ∧ notebook (state w') = Some (nb_clear nb)
    ∧ executed (state w') = false
    ∧ errors (state w') = errors (state w)
    ∧ executing (state w') = executing (state w)
    ∧ trace w' = trace w ++ [ENotebookClear; ESetExecuted false].
Proof.
  intros H. eexists. split.
  - run_hook. rewrite H. cbn. rewrite H. cbn. reflexivity.
  - cbn. rewrite <- app_assoc. repeat split; reflexivity.
Qed.

Lemma executeAll_returned options w nb execReturns w' :
  notebook (state w) = Some nb →
  executeAll options w = Returned execReturns w' →
  (nb_executeAll (default true (options ≫= stopOnError))
                 (options ≫= preprocessor) nb).1 = Resolves execReturns
  ∧ errors (state w') = match findErrors execReturns with
                        | Some errs => Some errs
                        | None => errors (state w)
                        end.
Proof.
  intros Hnb. unfold executeAll. unfold mbind at 1, M_bind, bind.
  rewrite (executeAll_dispatch_run options w nb Hnb).
  destruct (nb_executeAll _ _ nb).1 as [rs|r]; [|done].
  unfold mbind, M_bind, bind, await, ret. rewrite on_executed_run.
  intros [= <- <-]. done.
Qed.

Lemma executeSome_returned predicate options w nb execReturns w' :
  notebook (state w) = Some nb →
  executeSome predicate options w = Returned execReturns w' →
  (nb_executeCells (cell_id <$> List.filter predicate (cells nb))
                   (default true (options ≫= stopOnError))
                   (options ≫= preprocessor) nb).1 = Resolves execReturns
  ∧ errors (state w') = match findErrors execReturns with
                        | Some errs => Some errs
                        | None => errors (state w)
                        end.
Proof.
  intros Hnb. unfold executeSome. unfold mbind at 1, M_bind, bind.
  rewrite (executeSome_dispatch_run predicate options w nb Hnb).
  destruct (nb_executeCells _ _ _ nb).1 as [rs|r]; [|done].
  unfold mbind, M_bind, bind, await, ret. rewrite on_executed_run.
  intros [= <- <-]. done.
Qed.

End HookOperations.

(** ** The notebook as the specification describes it *)

Section SpecNotebookRuns.
Import Notebook.

Implicit Types (nb : SpecNotebook.t) (w : World (NB:=SpecNotebook.t)).

(** Every result of a run belongs to the cell at the same position of the
    list of cells that was run. *)
Lemma run_lookup nb stop pre cs : ∀ halted i r,
  SpecNotebook.run nb stop pre halted cs !! i = Some (Some r) →
  ∃ c, cs !! i = Some c ∧ r = SpecNotebook.execute nb pre c.
Proof.
  induction cs as [|c cs IH]; intros halted i r; [done|].
  cbn [SpecNotebook.run]. destruct halted.
  - destruct i as [|i]; [done|]. cbn. intros H. by apply IH in H.
  - destruct i as [|i]; cbn.
    + intros [= <-]. by exists c.
    + intros H. by apply IH in H.
Qed.

(** C4, as amended.  The [index] of an entry that a run records in [errors]
    is the position of its result in the list the notebook returned for
    that run.  With the notebook as specified, for [executeAll] this is the
    position of the cell in the notebook, and for [executeSome] it is the
    position of the cell among the cells that were run. *)
Theorem error_index_is_position_in_results options predicate w nb :
  notebook (state w) = Some nb →
  (∀ execReturns w' errs e,
     executeAll options w = Returned execReturns w' →
     findErrors execReturns = Some errs → e ∈ errs →
     errors (state w') = Some errs
     ∧ execReturns !! index e = Some (Some (err_return e))
     ∧ ∃ c, cells nb !! index e = Some c
            ∧ cell_id c = ret_id (err_return e))
  ∧ (∀ execReturns w' errs e,
       executeSome predicate options w = Returned execReturns w' →
       findErrors execReturns = Some errs → e ∈ errs →
       errors (state w') = Some errs
       ∧ execReturns !! index e = Some (Some (err_return e))
       ∧ ∃ c, SpecNotebook.selected nb
                (cell_id <$> List.filter predicate (cells nb)) !! index e = Some c
              ∧ cell_id c = ret_id (err_return e)).
Proof.
  intros Hnb. split; intros execReturns w' errs e Hrun Herrs He.
  - apply (executeAll_returned options w nb) in Hrun as [Hp Hw']; [|done].
    rewrite Herrs in Hw'. split; [done|].
    pose proof (findErrors_entry _ _ _ Herrs He) as Hl. split; [done|].
    cbn in Hp. injection Hp as <-.
    apply run_lookup in Hl as (c & Hc & ->). by exists c.
  - apply (executeSome_returned predicate options w nb) in Hrun as [Hp Hw']; [|done].
    rewrite Herrs in Hw'. split; [done|].
    pose proof (findErrors_entry _ _ _ Herrs He) as Hl. split; [done|].
    cbn in Hp. injection Hp as <-.
    apply run_lookup in Hl as (c & Hc & ->). by exists c.
Qed.

End SpecNotebookRuns.

(** ** Runs on a sample notebook *)

Section SampleRuns.
Import Notebook Samples.

Example ran_all_errors :
  errors (state ran_all)
  = Some [mkNotebookError (mkReturn "c" (Some (mkError "Exception" "raised"))) 2].
Proof. vm_compute. reflexivity. Qed.

Lemma findErrors_collects_witness :
  findErrors mixed_returns
  = Some [ mkNotebookError (mkReturn "b" (Some (mkError "Exception" "raised"))) 1;
           mkNotebookError (mkReturn "d" (Some (mkError "Exception" "raised"))) 3 ]
  ∧ ∀ errs, findErrors mixed_returns = Some errs →
      errs ≠ []
      ∧ StronglySorted lt (index <$> errs)
      ∧ ∀ e, e ∈ errs ↔
             mixed_returns !! index e = Some (Some (err_return e))
             ∧ is_Some (ret_error (err_return e)).
Proof.
  split; [reflexivity|].
  exact (proj1 (proj2 (proj2
           (findErrors_collects (NB:=SpecNotebook.t) mixed_returns)))).
Defined.

Lemma executeAll_runs_witness :
  notebook (state loaded) = Some three_cells
  ∧ ∃ w1,
      executeAll_dispatch (Some hooked) loaded
        = Returned (nb_executeAll true None three_cells).1 w1
      ∧ executing (state w1) = true
      ∧ trace w1 = trace loaded ++ calls (Some (callback "before"))
                     ++ [ESetExecuting true; ENotebookExecuteAll true None]
      ∧ ∀ execReturns,
          (nb_executeAll true None three_cells).1 = Resolves execReturns →
          ∃ w2,
            executeAll (Some hooked) loaded = Returned execReturns w2
            ∧ executed (state w2) = true
            ∧ executing (state w2) = false
            ∧ trace w2 = trace w1 ++ calls (Some (callback "after"))
                           ++ sets_errors (findErrors execReturns)
                           ++ [ESetExecuted true; ESetExecuting false].
Proof.
  split; [reflexivity|].
  apply (executeAll_runs (Some hooked) loaded three_cells). reflexivity.
Defined.

(** C3 fails as stated: after the full run has recorded the failure of
    cell [c], a run of cells [a] and [b] alone succeeds throughout and
    still leaves that entry in [errors]. *)
Lemma clean_run_leaves_stale_errors :
  ∃ execReturns w',
    executeSome is_a_or_b None ran_all = Returned execReturns w'
    ∧ execReturns = [Some (mkReturn "a" None); Some (mkReturn "b" None)]
    ∧ Forall (λ retval, carries_error retval = false) execReturns
    ∧ errors (state w')
      = Some [mkNotebookError (mkReturn "c" (Some (mkError "Exception" "raised"))) 2]
    ∧ errors (state w') ≠ None.
Proof.
  eexists _, _. split; [vm_compute; reflexivity|].
  split; [reflexivity|]. split; [by repeat constructor|]. split; done.
Qed.

Lemma clean_run_keeps_errors_witness :
  notebook (state ran_all) = Some (SpecNotebook.with_results three_cells
      (SpecNotebook.run three_cells true None false [cell_a; cell_b; cell_c]))
  ∧ ∃ w', executeSome is_a_or_b None ran_all
            = Returned [Some (mkReturn "a" None); Some (mkReturn "b" None)] w'
          ∧ errors (state w') = errors (state ran_all).
Proof.
  split; [reflexivity|].
  refine (proj2 (clean_run_keeps_errors None is_a_or_b ran_all _ _) _ _ _).
  - reflexivity.
  - reflexivity.
  - by repeat constructor.
Defined.

(** C4 fails as stated: when cells [a] and [c] of the three are run, the
    failure of [c] is recorded with index 1, while [c] is at position 2 of
    the notebook and position 1 holds [b]. *)
Lemma executeSome_index_is_not_notebook_position :
  ∃ execReturns w' e,
    executeSome is_a_or_c None loaded = Returned execReturns w'
    ∧ errors (state w') = Some [e]
    ∧ ret_id (err_return e) = "c"
    ∧ index e = 1
    ∧ cells three_cells !! 2 = Some cell_c
    ∧ cells three_cells !! index e = Some cell_b
    ∧ cell_id cell_b ≠ ret_id (err_return e).
Proof.
  eexists _, _, _. split; [vm_compute; reflexivity|].
  split; [reflexivity|]. repeat split; done.
Qed.

Lemma error_index_is_position_in_results_witness :
  notebook (state loaded) = Some three_cells
  ∧ ∀ execReturns w' errs e,
      executeSome is_a_or_c None loaded = Returned execReturns w' →
      findErrors execReturns = Some errs → e ∈ errs →
      errors (state w') = Some errs
      ∧ execReturns !! index e = Some (Some (err_return e))
      ∧ ∃ c, SpecNotebook.selected three_cells
               (cell_id <$> List.filter is_a_or_c (cells three_cells)) !! index e
             = Some c
             ∧ cell_id c = ret_id (err_return e).
Proof.
  split; [reflexivity|].
  apply (error_index_is_position_in_results None is_a_or_c loaded three_cells).
  reflexivity.
Defined.

Lemma operations_throw_without_notebook_witness :
  notebook (state (mounted (NB:=SpecNotebook.t))) = None
  ∧ executeAll None mounted
    = Threw "executeAll called before notebook available"
            (mounted (NB:=SpecNotebook.t))
  ∧ executeSome is_a_or_b None mounted
    = Threw "executeSome called before notebook available"
            (mounted (NB:=SpecNotebook.t))
  ∧ clear mounted
    = Threw "clear called before notebook available"
            (mounted (NB:=SpecNotebook.t)).
Proof.
  split; [reflexivity|].
  apply (operations_throw_without_notebook None is_a_or_b mounted). reflexivity.
Defined.

Lemma clear_resets_executed_only_witness :
  notebook (state ran_all) = Some (SpecNotebook.with_results three_cells
      (SpecNotebook.run three_cells true None false [cell_a; cell_b; cell_c]))
  ∧ ∃ w',
      clear ran_all = Returned () w'
      ∧ notebook (state w') = Some (nb_clear (SpecNotebook.with_results three_cells
          (SpecNotebook.run three_cells true None false [cell_a; cell_b; cell_c])))
      ∧ executed (state w') = false
      ∧ errors (state w') = errors (state ran_all)
      ∧ executing (state w') = executing (state ran_all)
      ∧ trace w' = trace ran_all ++ [ENotebookClear; ESetExecuted false].
Proof.
  split; [reflexivity|].
  apply (clear_resets_executed_only ran_all). reflexivity.
Defined.

End SampleRuns.

(** ** The session provider *)

Section SessionProvider.
Import Session.

Implicit Types (w : World) (ctx : ServerContext) (props : Props).

Ltac run_provider :=
  unfold start, startSession, on_session, restart, shutdown,
    setStarting, setDoRestart, setRestarting, setSession, setReady, setError;
  unfold mbind, mret, M_bind, M_ret, bind, ret, throw, emit, get, put, await;
  cbn.







Lemma startSession_no_server ctx props w :
  server ctx = None →
  startSession ctx props w =
  Returned ()
    {| state := {| starting := true; doRestart := doRestart (state w);
                   restarting := restarting (state w);
                   session := session (state w); ready := ready (state w);
                   error := error (state w) |};
       trace := trace w ++ [ESetStarting true] |}.
Proof. intros H. run_provider. by rewrite H. Qed.

Lemma startSession_requests ctx props w srv :
  server ctx = Some srv →
  ∃ rest,
    trace (world_after (startSession ctx props w))
    = trace w ++ [ESetStarting true; EStartNewSession (session_request ctx props)]
        ++ rest.
Proof.
  intros H. run_provider. rewrite H. cbn.
  destruct (startNewSession srv (session_request ctx props)) as [[s|]|r]; cbn.
  - eexists. repeat rewrite <- app_assoc. cbn. reflexivity.
  - destruct (getKernelSpecs srv) as [specs|r]; cbn;
      eexists; repeat rewrite <- app_assoc; cbn; reflexivity.
  - exists []. repeat rewrite <- app_assoc. reflexivity.
Qed.

Lemma session_request_name_path ctx props :
  session_request ctx props !! "name" = Some (name props)
  ∧ session_request ctx props !! "path" = Some (name props).
Proof.
  unfold session_request. split.
  - rewrite lookup_insert_ne by done. apply lookup_insert_eq.
  - apply lookup_insert_eq.
Qed.

(** C6, as amended.  When a session is stored and ready, [start] restarts
    that session: the stored handle and every other state cell stay as
    they are and no session is requested.  Otherwise, if there is a server
    connection, [start] raises [starting] and requests a new session from
    it with the logical name as both [name] and [path]; if there is none,
    [start] only raises [starting]. *)
Theorem start_restarts_or_requests ctx props w :
  match session (state w), ready (state w) with
  | Some sess, true =>
      world_after (start ctx props w)
      = {| state := state w; trace := trace w ++ [ESessionRestart sess] |}
  | _, _ =>
      start ctx props w = startSession ctx props w
      ∧ session_request ctx props !! "name" = Some (name props)
      ∧ session_request ctx props !! "path" = Some (name props)
      ∧ match server ctx with
        | Some srv =>
            ∃ rest,
              trace (world_after (start ctx props w))
              = trace w ++ [ESetStarting true;
                            EStartNewSession (session_request ctx props)]
                  ++ rest
        | None =>
            world_after (start ctx props w)
            = {| state := {| starting := true;
                             doRestart := doRestart (state w);
                             restarting := restarting (state w);
                             session := session (state w);
                             ready := ready (state w);
                             error := error (state w) |};
                 trace := trace w ++ [ESetStarting true] |}
        end
  end.
Proof.
  assert (match session (state w), ready (state w) with
          | Some _, true => True
          | _, _ => start ctx props w = startSession ctx props w
          end) as Hstart.
  { unfold start, mbind, M_bind, bind, get. cbv beta iota.
    destruct (session (state w)) as [sess|]; [|reflexivity].
    destruct (ready (state w)); [exact I|reflexivity]. }
  destruct (session (state w)) as [sess|] eqn:Hs;
    [destruct (ready (state w)) eqn:Hr|].
  - unfold start, mbind, M_bind, bind, get. cbv beta iota. rewrite Hs, Hr.
    run_provider. by destruct (restart_settles sess).
  - rewrite Hstart. split; [done|]. destruct (session_request_name_path ctx props).
    split; [done|]. split; [done|].
    destruct (server ctx) as [srv|] eqn:Hsrv.
    + by apply (startSession_requests ctx props w srv).
    + rewrite startSession_no_server by done. cbn. by rewrite Hs, Hr.
  - rewrite Hstart. split; [done|]. destruct (session_request_name_path ctx props).
    split; [done|]. split; [done|].
    destruct (server ctx) as [srv|] eqn:Hsrv.
    + by apply (startSession_requests ctx props w srv).
    + rewrite startSession_no_server by done. cbn. by rewrite Hs.
Qed.


End SessionProvider.

Section SessionRuns.
Import Session SessionSamples.

(** C6 fails as stated: with no server connection, [start] on a provider
    without a session requests nothing. *)
Lemma start_without_server_requests_nothing :
  session (state fresh) = None
  ∧ start unconnected default_props fresh
    = Returned ()
        {| state := {| starting := true; doRestart := false; restarting := false;
                       session := None; ready := false; error := None |};
           trace := [ESetStarting true] |}
  ∧ ∀ request,
      EStartNewSession request
        ∉ trace (world_after (start unconnected default_props fresh)).
Proof.
  split; [reflexivity|]. split; [reflexivity|].
  intros request Hin. cbn in Hin. apply list_elem_of_singleton in Hin. done.
Qed.

Lemma start_restarts_or_requests_witness :
  world_after (start connected default_props running)
  = {| state := state running; trace := [ESessionRestart live_session] |}.
Proof. exact (start_restarts_or_requests connected default_props running). Defined.



End SessionRuns.

(** ** The cell user interface *)

Section Rendering.
Import UI.
Context {NB : Type} `{!ThebeNotebook NB}.

Lemma map_in_order_app {A B} (f : A → UI B) (l1 l2 : list A) (b : Browser) :
  map_in_order f (l1 ++ l2) b =
  (let '(r1, b1) := map_in_order f l1 b in
   let '(r2, b2) := map_in_order f l2 b1 in
   (r1 ++ r2, b2)).
Proof.
  revert b. induction l1 as [|x l1 IH]; intros b; cbn [map_in_order app].
  - unfold mret, UI_ret. by destruct (map_in_order f l2 b).
  - unfold mbind, UI_bind, mret, UI_ret. destruct (f x b) as [y b'].
    rewrite IH. destruct (map_in_order f l1 b') as [r1 b1].
    by destruct (map_in_order f l2 b1) as [r2 b2].
Qed.

(** What holds of the result of every continuation holds of the result
    of the whole. *)
Lemma bind_result {A B} (P : B → Prop) (m : UI A) (f : A → UI B) b :
  (∀ a b', P (f a b').1) → P ((m ≫= f) b).1.
Proof. intros H. unfold mbind, UI_bind. destruct (m b) as [a b']. apply H. Qed.

Lemma buildCellUI_has_ui options it (notebook : NB) cell b :
  is_Some (ui (buildCellUI options it notebook cell b).1).
Proof.
  unfold buildCellUI.
  do 3 (apply bind_result; intros ? ?).
  do 6 (apply bind_result; intros [? ?] ?).
  do 2 (apply bind_result; intros ? ?).
  cbn. eauto.
Qed.

(** Induction on an element, with the property at hand for its children. *)
Lemma Element_children_ind (P : Element → Prop) :
  (∀ e, Forall P (children e) → P e) → ∀ e, P e.
Proof.
  intros Hstep. fix IH 1. intros e. apply Hstep.
  destruct e as [h tag attrs cl vis txt oc cs]. cbn [children].
  induction cs as [|c cs IHcs]; constructor; [apply IH|exact IHcs].
Qed.

Lemma subtree_closed e : ∀ e' d, e' ∈ subtree e → d ∈ subtree e' → d ∈ subtree e.
Proof.
  induction e as [e IHe] using Element_children_ind. intros e' d.
  destruct e as [h tag attrs cl vis txt oc cs]. cbn [children] in IHe.
  cbn [subtree children]. rewrite elem_of_cons. intros [->|Hin] Hd; [done|].
  apply list_elem_of_further.
  induction cs as [|c cs IHcs]; cbn [flat_map] in *; [by apply elem_of_nil in Hin|].
  apply Forall_cons in IHe as [Hc Hcs]. apply elem_of_app.
  apply elem_of_app in Hin as [Hin|Hin].
  - left. by apply (Hc e' d).
  - right. by apply IHcs.
Qed.

Lemma descendants_in_page e d (b : Browser) :
  e ∈ flat_map subtree (document b) → d ∈ descendants e →
  d ∈ flat_map subtree (document b).
Proof.
  intros He Hd.
  assert (d ∈ subtree e) as Hd'.
  { destruct e. cbn [subtree]. by apply list_elem_of_further. }
  induction (document b) as [|r rs IH]; cbn [flat_map] in *; [by apply elem_of_nil in He|].
  apply elem_of_app. apply elem_of_app in He as [He|He].
  - left. by apply (subtree_closed r e d).
  - right. by apply IH.
Qed.

Lemma filter_nothing {A} (f : A → bool) (l : list A) :
  (∀ x, x ∈ l → f x = false) → List.filter f l = [].
Proof.
  induction l as [|x l IH]; intros Hf; [done|]. cbn [List.filter].
  rewrite (Hf x) by apply list_elem_of_here.
  apply IH. intros y Hy. by apply Hf, list_elem_of_further.
Qed.

(** On a page none of whose elements has the class [.thebe-busy], dot
    included, [getButtonsBusy] finds nothing and [setButtonsBusy] does
    nothing, whatever the id. *)
Lemma setButtonsBusy_without_dotted_class (cellId : string) (b : Browser) :
  (∀ e, e ∈ flat_map subtree (document b) → ".thebe-busy" ∉ classList e) →
  getButtonsBusy cellId b = None ∧ setButtonsBusy cellId b = ((), b).
Proof.
  intros Hnone.
  assert (getButtonsBusy cellId b = None) as Hget.
  { unfold getButtonsBusy, getElementById.
    destruct (List.find _ (flat_map subtree (document b))) as [cell|] eqn:Hfind;
      [|done].
    apply find_some in Hfind as [Hcell _]. apply list_elem_of_In in Hcell.
    cbn. unfold getElementsByClassName.
    rewrite filter_nothing; [done|]. intros d Hd.
    apply bool_decide_eq_false, Hnone. by apply (descendants_in_page cell). }
  split; [done|]. unfold setButtonsBusy, mbind, UI_bind, get. by rewrite Hget.
Qed.

Lemma renderAllCells_unmatched options (notebook : NB) items b :
  (∀ it, it ∈ items → getCellById notebook (id it) = None) →
  renderAllCells options notebook items b = (items, b).
Proof.
  unfold renderAllCells. induction items as [|it items IH]; intros Hnone; [done|].
  cbn [map_in_order].
  assert (renderCell options notebook it = mret it) as ->.
  { unfold renderCell. by rewrite (Hnone it) by apply list_elem_of_here. }
  unfold mbind, UI_bind, mret, UI_ret.
  rewrite IH; [done|]. intros it' Hin. by apply Hnone, list_elem_of_further.
Qed.

(** C10. [renderAllCells] visits the items in order.  An item whose id is
    the id of no cell of the notebook comes back as it is, and the browser
    is left as the items before it left it: nothing is built and nothing
    is attached for it.  An item whose id is the id of a cell is replaced
    by what [buildCellUI] returns for it, which has its [ui] set. *)
Theorem renderAllCells_skips_unmatched options (notebook : NB)
    (before : list CellDOMItem) (it : CellDOMItem) (after : list CellDOMItem)
    (b : Browser) :
  renderAllCells options notebook (before ++ it :: after) b =
    (let '(done_before, b1) := renderAllCells options notebook before b in
     let '(it', b2) :=
       match getCellById notebook (id it) with
       | None => (it, b1)
       | Some cell => buildCellUI options it notebook cell b1
       end in
     let '(done_after, b3) := renderAllCells options notebook after b2 in
     (done_before ++ it' :: done_after, b3))
  ∧ (∀ cell b', is_Some (ui (buildCellUI options it notebook cell b').1))
  ∧ ((∀ x, x ∈ before ++ it :: after → getCellById notebook (id x) = None) →
     renderAllCells options notebook (before ++ it :: after) b
     = (before ++ it :: after, b)).
Proof.
  split; [|split].
  - unfold renderAllCells. rewrite map_in_order_app.
    destruct (map_in_order (renderCell options notebook) before b) as [r1 b1].
    cbn [map_in_order].
    change (renderCell options notebook it)
      with (match getCellById notebook (id it) with
            | None => mret it
            | Some cell => buildCellUI options it notebook cell
            end).
    unfold mbind, UI_bind, mret, UI_ret.
    destruct (getCellById notebook (id it)) as [cell|].
    + destruct (buildCellUI options it notebook cell b1) as [it' b2].
      by destruct (map_in_order (renderCell options notebook) after b2).
    + by destruct (map_in_order (renderCell options notebook) after b1).
  - intros cell b'. apply buildCellUI_has_ui.
  - apply renderAllCells_unmatched.
Qed.

End Rendering.

Section RenderedPage.
Import UI UISamples.

Example rendered_stray_item :
  renderAllCells all_buttons one_cell [stray_item] page = ([stray_item], page).
Proof. reflexivity. Qed.

Example renderAllCells_skips_unmatched_sample :
  (renderAllCells all_buttons one_cell [found_item; stray_item] page).1
  = [ {| id := "cell-1"; placeholders := mkPlaceholders 0 None;
         ui := Some {| ui_cell := 2; ui_editor := 3; ui_output := 10;
                       buttons := mkButtons (Some 4) (Some 5) (Some 6) (Some 7) |} |};
      stray_item ].
Proof. vm_compute. reflexivity. Qed.

Lemma renderAllCells_skips_unmatched_witness :
  renderAllCells all_buttons one_cell ([] ++ stray_item :: []) page
  = ([] ++ stray_item :: [], page).
Proof.
  apply (proj2 (proj2
           (renderAllCells_skips_unmatched all_buttons one_cell [] stray_item [] page))).
  intros x Hx. apply list_elem_of_singleton in Hx as ->. reflexivity.
Defined.

(** C9 does not hold of the code.  On the page as [renderAllCells] leaves
    it, the cell [cell-1] has the busy indicator [buildButtonBusySpinner]
    built, with the class [thebe-busy]; [getButtonsBusy] asks for the
    class [.thebe-busy] and finds nothing, so that [setButtonsBusy] leaves
    the browser as it was, the indicator not made visible, and the timer
    set by [clearButtonsBusy] changes no element when it fires. *)
Theorem setButtonsBusy_misses_the_indicator :
  (∃ cell, getElementById "cell-1" rendered = Some cell
           ∧ getElementsByClassName "thebe-busy" cell = [spinner])
  ∧ getButtonsBusy "cell-1" rendered = None
  ∧ setButtonsBusy "cell-1" rendered = ((), rendered)
  ∧ visibility <$> deref (handle spinner) (setButtonsBusy "cell-1" rendered).2
    = Some ""
  ∧ timers (clearButtonsBusy "cell-1" rendered).2 = [(3000, HideBusy "cell-1")]
  ∧ document (elapse 3000 (clearButtonsBusy "cell-1" rendered).2).2
    = document rendered.
Proof.
  split.
  { exists (default spinner (getElementById "cell-1" rendered)).
    split; vm_compute; reflexivity. }
  do 4 (split; [vm_compute; reflexivity|]).
  vm_compute. reflexivity.
Qed.

End RenderedPage.

(** * Further properties *)

(** ** More on the error collection *)

Section FindErrorsMore.
Import Notebook ErrorEntries.

Lemma entries_failing l : entries l = failing_entries l.
Proof.
  unfold entries. rewrite findErrors_failing_entries.
  by destruct (failing_entries l).
Qed.

Lemma failing_from_results i l :
  (Some ∘ err_return) <$> failing_from i l = List.filter carries_error l.
Proof.
  revert i. induction l as [|x l IH]; intros i; [done|].
  rewrite failing_from_cons. cbn [List.filter]. unfold recorded.
  destruct x as [r|].
  - destruct (carries_error (Some r)); cbn [fmap list_fmap]; by rewrite IH.
  - cbn [carries_error]. apply IH.
Qed.

Lemma recorded_index i x e : recorded (i, x) = Some e → index e = i.
Proof.
  unfold recorded. destruct x as [r|]; [|done].
  destruct (carries_error (Some r)); [|done]. by intros [= <-].
Qed.

Lemma failing_from_bounds i l :
  Forall (λ k, i ≤ k < i + length l) (index <$> failing_from i l).
Proof.
  revert i. induction l as [|x l IH]; intros i; [constructor|].
  rewrite failing_from_cons.
  assert (Forall (λ k, i ≤ k < i + length (x :: l))
                 (index <$> failing_from (S i) l)) as Hrest.
  { eapply Forall_impl; [apply IH|]. cbn. lia. }
  destruct (recorded (i, x)) as [e|] eqn:He; [|done].
  apply recorded_index in He.
  cbn [fmap list_fmap]. constructor; [cbn; lia|done].
Qed.

Lemma failing_from_shifted i l : ∀ j,
  failing_from (i + j) l = shifted i <$> failing_from j l.
Proof.
  induction l as [|x l IH]; intros j; [done|].
  rewrite !failing_from_cons. rewrite <- Nat.add_succ_r, IH.
  unfold recorded. destruct x as [r|]; [|done].
  by destruct (carries_error (Some r)).
Qed.

Lemma failing_from_app l1 l2 : ∀ i,
  failing_from i (l1 ++ l2)
  = failing_from i l1 ++ failing_from (i + length l1) l2.
Proof.
  induction l1 as [|x l1 IH]; intros i; cbn [app length].
  - by rewrite Nat.add_0_r.
  - rewrite !failing_from_cons, IH, Nat.add_succ_r.
    by destruct (recorded (i, x)).
Qed.

(** X1. Stripped of their indices, the entries are the failing results of the
    list, in order and as often as they occur; no two entries have the same
    index, and every index is a position of the list. *)
Theorem findErrors_entries_are_the_failures
    (execReturns : list (option IThebeCellExecuteReturn)) :
  (Some ∘ err_return) <$> entries execReturns
    = List.filter carries_error execReturns
  ∧ NoDup (index <$> entries execReturns)
  ∧ Forall (λ k, k < length execReturns) (index <$> entries execReturns)
  ∧ length (entries execReturns) ≤ length execReturns.
Proof.
  rewrite entries_failing. unfold failing_entries.
  assert (StronglySorted lt (index <$> failing_from 0 execReturns)) as Hs
    by apply failing_from_ascending.
  split; [apply failing_from_results|]. split; [|split].
  - induction Hs as [|k ks Hs IH Hk]; constructor; [|done].
    intros Hin. rewrite Forall_forall in Hk. apply Hk in Hin. lia.
  - eapply Forall_impl; [apply (failing_from_bounds 0)|]. cbn. lia.
  - rewrite <- (length_fmap (Some ∘ err_return)), failing_from_results.
    apply List.filter_length_le.
Qed.

(** X2. The entries of two lists put end to end are the entries of the first
    followed by those of the second, their indices moved on by the length
    of the first. *)
Theorem findErrors_app (l1 l2 : list (option IThebeCellExecuteReturn)) :
  entries (l1 ++ l2) = entries l1 ++ (shifted (length l1) <$> entries l2).
Proof.
  rewrite !entries_failing. unfold failing_entries.
  rewrite failing_from_app. f_equal.
  rewrite <- (failing_from_shifted (length l1) l2 0). by rewrite Nat.add_0_r.
Qed.

End FindErrorsMore.

(** ** More on the hook's operations *)

Section HookMore.
Import Notebook.
Context {NB : Type} `{!ThebeNotebook NB}.

Implicit Types (w : World (NB:=NB)) (nb : NB)
  (options : option NotebookExecuteOptions).

(** X3. With a notebook set, [executeSome] calls the [before] hook, sets
    [executing] and then asks the notebook to run the cells that satisfy
    the predicate, named by their ids in notebook order, stopping on error
    unless the options say otherwise; when that resolves, the promise
    resolves with the notebook's list, after the [after] hook, with
    [executed] true and [executing] false. *)
Theorem executeSome_runs predicate options w nb :
  notebook (state w) = Some nb →
  let ids := cell_id <$> List.filter predicate (cells nb) in
  let stop := default true (options ≫= stopOnError) in
  let pre := options ≫= preprocessor in
  (∀ c, c ∈ cells nb → predicate c = true → cell_id c ∈ ids)
  ∧ ids `sublist_of` (cell_id <$> cells nb)
  ∧ ∃ w1,
      executeSome_dispatch predicate options w
        = Returned (nb_executeCells ids stop pre nb).1 w1
      ∧ executing (state w1) = true
      ∧ trace w1 = trace w ++ calls (options ≫= before)
                     ++ [ESetExecuting true; ENotebookExecuteCells ids stop pre]
      ∧ ∀ execReturns,
          (nb_executeCells ids stop pre nb).1 = Resolves execReturns →
          ∃ w2,
            executeSome predicate options w = Returned execReturns w2
            ∧ executed (state w2) = true
            ∧ executing (state w2) = false
            ∧ trace w2 = trace w1 ++ calls (options ≫= after)
                           ++ sets_errors (findErrors execReturns)
                           ++ [ESetExecuted true; ESetExecuting false].
Proof.
  intros Hnb ids stop pre. split; [|split].
  - intros c Hc Hp. apply list_elem_of_fmap. exists c. split; [done|].
    apply list_elem_of_In, filter_In. split; [by apply list_elem_of_In|done].
  - apply fmap_sublist. clear. induction (cells nb) as [|c cs IH]; [done|].
    cbn [List.filter]. destruct (predicate c); by constructor.
  - eexists. split; [exact (executeSome_dispatch_run predicate options w nb Hnb)|].
    split; [reflexivity|]. split; [reflexivity|].
    intros execReturns Hp. eexists. split.
    + rewrite (executeSome_settles predicate options w nb execReturns Hnb Hp).
      rewrite (executeSome_dispatch_run predicate options w nb Hnb).
      cbn [world_after]. apply on_executed_run.
    + split; [reflexivity|]. split; reflexivity.
Qed.

(** X4. When the notebook's promise rejects, the promise of [executeAll] or
    [executeSome] rejects with the same reason and the [.then] callback
    never runs: the [after] hook is not called, [executed] and [errors] stay
    as they were, and [executing] stays true. *)
Theorem rejected_run_stays_executing predicate options w nb reason :
  notebook (state w) = Some nb →
  let ids := cell_id <$> List.filter predicate (cells nb) in
  let stop := default true (options ≫= stopOnError) in
  let pre := options ≫= preprocessor in
  ((nb_executeAll stop pre nb).1 = Rejects reason →
   ∃ w', executeAll options w = Rejected reason w'
         ∧ executing (state w') = true
         ∧ executed (state w') = executed (state w)
         ∧ errors (state w') = errors (state w)
         ∧ trace w' = trace w ++ calls (options ≫= before)
                        ++ [ESetExecuting true; ENotebookExecuteAll stop pre])
  ∧ ((nb_executeCells ids stop pre nb).1 = Rejects reason →
     ∃ w', executeSome predicate options w = Rejected reason w'
           ∧ executing (state w') = true
           ∧ executed (state w') = executed (state w)
           ∧ errors (state w') = errors (state w)
           ∧ trace w' = trace w ++ calls (options ≫= before)
                          ++ [ESetExecuting true;
                              ENotebookExecuteCells ids stop pre]).
Proof.
  intros Hnb ids stop pre. split; intros Hp; eexists; split.
  - unfold executeAll. unfold mbind at 1, M_bind, bind.
    rewrite (executeAll_dispatch_run options w nb Hnb).
    fold stop pre. rewrite Hp. reflexivity.
  - repeat split; reflexivity.
  - unfold executeSome. unfold mbind at 1, M_bind, bind.
    rewrite (executeSome_dispatch_run predicate options w nb Hnb).
    fold ids stop pre. rewrite Hp. reflexivity.
  - repeat split; reflexivity.
Qed.

(** X5. A run whose results carry an error leaves in [errors] the failing
    entries of that run and nothing else: what an earlier run recorded is
    dropped, not added to. *)
Theorem failing_run_replaces_errors predicate options w nb :
  notebook (state w) = Some nb →
  (∀ execReturns w',
     executeAll options w = Returned execReturns w' →
     failing_entries execReturns ≠ [] →
     errors (state w') = Some (failing_entries execReturns))
  ∧ (∀ execReturns w',
       executeSome predicate options w = Returned execReturns w' →
       failing_entries execReturns ≠ [] →
       errors (state w') = Some (failing_entries execReturns)).
Proof.
  intros Hnb. split; intros execReturns w' Hrun Hfail.
  - apply (executeAll_returned options w nb) in Hrun as [_ ->]; [|done].
    rewrite findErrors_failing_entries. by destruct (failing_entries execReturns).
  - apply (executeSome_returned predicate options w nb) in Hrun as [_ ->]; [|done].
    rewrite findErrors_failing_entries. by destruct (failing_entries execReturns).
Qed.

End HookMore.

Section HookMoreRuns.
Import Notebook Samples MoreSamples.

Lemma executeSome_runs_witness :
  notebook (state loaded) = Some three_cells
  ∧ ∃ w1,
      executeSome_dispatch is_a_or_c (Some hooked) loaded
        = Returned (nb_executeCells ["a"; "c"] true None three_cells).1 w1
      ∧ executing (state w1) = true.
Proof.
  split; [reflexivity|].
  destruct (executeSome_runs is_a_or_c (Some hooked) loaded three_cells eq_refl)
    as (_ & _ & w1 & Hd & He & _).
  by exists w1.
Defined.

Lemma rejected_run_stays_executing_witness :
  notebook (state unreachable_loaded) = Some unreachable
  ∧ ∃ w', executeAll None unreachable_loaded = Rejected "no kernel" w'
          ∧ executing (state w') = true
          ∧ executed (state w') = false
          ∧ errors (state w') = None
          ∧ trace w' = [ESetNotebook; ESetExecuting true;
                        ENotebookExecuteAll true None].
Proof.
  split; [reflexivity|].
  exact (proj1 (rejected_run_stays_executing is_a_or_b None unreachable_loaded
                  unreachable "no kernel" eq_refl) eq_refl).
Defined.

Lemma failing_run_replaces_errors_witness :
  notebook (state ran_then_changed) = Some two_failures
  ∧ errors (state ran_then_changed)
    = Some [mkNotebookError (mkReturn "c" (Some (mkError "Exception" "raised"))) 2]
  ∧ errors (state (world_after (executeAll (Some keep_going) ran_then_changed)))
    = Some [mkNotebookError (mkReturn "b" (Some (mkError "Exception" "raised"))) 1;
            mkNotebookError (mkReturn "c" (Some (mkError "Exception" "raised"))) 2]
  ∧ ∀ execReturns w',
      executeAll (Some keep_going) ran_then_changed = Returned execReturns w' →
      failing_entries execReturns ≠ [] →
      errors (state w') = Some (failing_entries execReturns).
Proof.
  split; [reflexivity|]. split; [reflexivity|].
  split; [vm_compute; reflexivity|].
  exact (proj1 (failing_run_replaces_errors is_a_or_b (Some keep_going)
                  ran_then_changed two_failures eq_refl)).
Defined.

End HookMoreRuns.

(** ** More on the session provider *)

Section SessionMore.
Import Session SessionHistory.

Implicit Types (w : World) (ctx : ServerContext) (props : Props).

Ltac run_session :=
  unfold start, startSession, on_session, restart, service_restart, shutdown,
    auto_start,
    setStarting, setDoRestart, setRestarting, setSession, setReady, setError;
  unfold mbind, mret, M_bind, M_ret, bind, ret, throw, emit, get, put, await;
  cbn.

(** X6. When the server gives a session, [startSession] stores it, sets
    [ready] and clears [starting], without asking for the kernel
    specifications; [error] is not touched, so that the message of an
    earlier failed start is still there. *)
Theorem session_started_keeps_error ctx props w srv sess :
  server ctx = Some srv →
  startNewSession srv (session_request ctx props) = Resolves (Some sess) →
  ∃ w',
    startSession ctx props w = Returned () w'
    ∧ session (state w') = Some sess
    ∧ ready (state w') = true
    ∧ starting (state w') = false
    ∧ error (state w') = error (state w)
    ∧ trace w' = trace w ++ [ESetStarting true;
                             EStartNewSession (session_request ctx props);
                             ESetStarting false;
                             ESetSession (Some sess);
                             ESetReady true].
Proof.
  intros Hsrv Hsess. eexists. split.
  - run_session. rewrite Hsrv. cbn. rewrite Hsess. cbn. reflexivity.
  - cbn. repeat rewrite <- app_assoc. repeat split; reflexivity.
Qed.

(** X7. [startSession] neither throws nor rejects, whatever the server
    does.  A rejected session request leaves [starting] true and nothing
    else changed; a rejected query for the kernel specifications, after a
    null session, leaves [starting] false and [error] as it was.  In both
    cases the failure is recorded nowhere. *)
Theorem server_rejections_are_dropped ctx props w :
  (∃ w', startSession ctx props w = Returned () w')
  ∧ (∀ srv reason,
       server ctx = Some srv →
       startNewSession srv (session_request ctx props) = Rejects reason →
       startSession ctx props w =
       Returned ()
         {| state := {| starting := true; doRestart := doRestart (state w);
                        restarting := restarting (state w);
                        session := session (state w);
                        ready := ready (state w);
                        error := error (state w) |};
            trace := trace w ++ [ESetStarting true;
                                 EStartNewSession (session_request ctx props)] |})
  ∧ (∀ srv reason,
       server ctx = Some srv →
       startNewSession srv (session_request ctx props) = Resolves None →
       getKernelSpecs srv = Rejects reason →
       startSession ctx props w =
       Returned ()
         {| state := {| starting := false; doRestart := doRestart (state w);
                        restarting := restarting (state w);
                        session := session (state w);
                        ready := ready (state w);
                        error := error (state w) |};
            trace := trace w ++ [ESetStarting true;
                                 EStartNewSession (session_request ctx props);
                                 ESetStarting false;
                                 EGetKernelSpecs] |}).
Proof.
  split; [|split].
  - run_session. destruct (server ctx) as [srv|]; cbn; [|by eexists].
    destruct (startNewSession srv (session_request ctx props)) as [[s|]|r]; cbn;
      [by eexists| |by eexists].
    destruct (getKernelSpecs srv) as [specs|r]; cbn; by eexists.
  - intros srv reason Hsrv Hrej. run_session. rewrite Hsrv. cbn. rewrite Hrej.
    cbn. by repeat rewrite <- app_assoc.
  - intros srv reason Hsrv Hnull Hrej. run_session. rewrite Hsrv. cbn.
    rewrite Hnull. cbn. rewrite Hrej. cbn. by repeat rewrite <- app_assoc.
Qed.

(** X8. A shutdown that resolves clears [ready] and the stored session; a
    second shutdown then does nothing at all, and a [start] after it goes
    the way of a new session, not of a restart.  Without a session
    [shutdown] does nothing; when the session's shutdown rejects, [ready]
    and the session stay. *)
Theorem shutdown_then ctx props w :
  match session (state w) with
  | None => shutdown w = Returned () w
  | Some sess =>
      match shutdown_settles sess with
      | Resolves _ =>
          ∃ w',
            shutdown w = Returned () w'
            ∧ ready (state w') = false
            ∧ session (state w') = None
            ∧ trace w' = trace w ++ [ESessionShutdown sess; ESetReady false;
                                     ESetSession None]
            ∧ shutdown w' = Returned () w'
            ∧ start ctx props w' = startSession ctx props w'
      | Rejects reason =>
          shutdown w
          = Rejected reason
              {| state := state w; trace := trace w ++ [ESessionShutdown sess] |}
      end
  end.
Proof.
  destruct (session (state w)) as [sess|] eqn:Hs.
  - destruct (shutdown_settles sess) as [[]|reason] eqn:Hsh.
    + eexists. split.
      * run_session. rewrite Hs. cbn. rewrite Hsh. cbn. reflexivity.
      * cbn. repeat rewrite <- app_assoc. repeat split; reflexivity.
    + run_session. rewrite Hs. cbn. rewrite Hsh. reflexivity.
  - run_session. rewrite Hs. by destruct w.
Qed.

(** X9. A restart request raises [doRestart] and [restarting]; when it is
    serviced, [doRestart] is lowered, and [restarting] is lowered at once
    if there is no session, after the session's restart if that resolves,
    and never if that rejects.  With no request pending the servicing
    effect does nothing. *)
Theorem restart_is_serviced w :
  (doRestart (state w) = false → service_restart w = Returned () w)
  ∧ ∃ w1 w2,
      restart w = Returned () w1
      ∧ doRestart (state w1) = true
      ∧ restarting (state w1) = true
      ∧ service_restart w1 = Returned () w2
      ∧ doRestart (state w2) = false
      ∧ session (state w2) = session (state w)
      ∧ ready (state w2) = ready (state w)
      ∧ match session (state w) with
        | None =>
            restarting (state w2) = false
            ∧ trace w2 = trace w ++ [ESetDoRestart true; ESetRestarting true;
                                     ESetDoRestart false; ESetRestarting false]
        | Some sess =>
            match restart_settles sess with
            | Resolves _ =>
                restarting (state w2) = false
                ∧ trace w2 = trace w ++ [ESetDoRestart true; ESetRestarting true;
                                         ESetDoRestart false; ESessionRestart sess;
                                         ESetRestarting false]
            | Rejects _ =>
                restarting (state w2) = true
                ∧ trace w2 = trace w ++ [ESetDoRestart true; ESetRestarting true;
                                         ESetDoRestart false; ESessionRestart sess]
            end
        end.
Proof.
  split.
  - intros Hno. run_session. rewrite Hno. by destruct w.
  - destruct (session (state w)) as [sess|] eqn:Hs;
      [destruct (restart_settles sess) as [[]|reason] eqn:Hr|];
      eexists _, _; (split; [reflexivity|]); cbn;
      (split; [done|]); (split; [done|]); run_session; rewrite Hs; cbn;
      rewrite ?Hr; cbn; repeat rewrite <- app_assoc;
      repeat split; reflexivity.
Qed.

Ltac run_history :=
  unfold perform, act, settle, request_session, session_answered, cleanup,
    restart,
    setStarting, setDoRestart, setRestarting, setSession, setReady, setError;
  unfold mbind, mret, M_bind, M_ret, bind, ret, throw, emit, get, put, await;
  cbn.

(** The requests among what has been done, when more has been done that is
    no request. *)
Ltac same_requests :=
  repeat rewrite <- app_assoc;
  rewrite ?List.filter_app; cbn; rewrite ?app_nil_r.

Lemma perform_without_start a (r : Provider) :
  no_start a = true → starting (state (world r)) = false →
  starting (state (world (perform a r))) = false
  ∧ List.filter is_request (trace (world (perform a r)))
    = List.filter is_request (trace (world r)).
Proof.
  intros Ha Hw. destruct a as [ctx props|ctx props| | | |props| |k]; [done|..].
  - run_history. rewrite Hw. rewrite !orb_true_r. done.
  - run_history. split; [done|]. by same_requests.
  - run_history. destruct (doRestart (state (world r))); cbn; [|done].
    destruct (session (state (world r))) as [sess|]; cbn;
      (split; [done|]); by same_requests.
  - run_history. destruct (session (state (world r))) as [sess|]; cbn; [|done].
    split; [done|]. by same_requests.
  - run_history. destruct (effect_shutdown r); [|done].
    destruct (effect_session r) as [sess|]; cbn; [|done].
    split; [done|]. by same_requests.
  - run_history. destruct (effect_shutdown r); [|done].
    destruct (effect_session r) as [sess|]; cbn; [|done].
    split; [done|]. by same_requests.
  - run_history.
    destruct (pending r !! k) as [[srv [[sess|]|]|[specs|]|[[]|]|[[]|]]|];
      cbn; rewrite ?Hw; (split; [done|]); try done; by same_requests.
Qed.

(** X10. The effect meant to start a session by itself acts only when
    [starting] is already set, and nothing but [start] sets it: in a history
    without a call of [start], whatever the server and the properties,
    whichever effects run and promises settle, and in whatever order, no
    session is ever requested and [starting] stays false. *)
Theorem auto_start_never_starts_first (history : list Action) :
  forallb no_start history = true →
  starting (state (world (after_actions history))) = false
  ∧ ∀ request,
      EStartNewSession request ∉ trace (world (after_actions history)).
Proof.
  intros Hh.
  assert (starting (state (world (after_actions history))) = false
          ∧ List.filter is_request (trace (world (after_actions history))) = [])
    as [Hs Hf].
  { unfold after_actions. induction history as [|a history IH] using rev_ind.
    - done.
    - rewrite forallb_app in Hh. apply andb_true_iff in Hh as [Hh Ha].
      cbn in Ha. rewrite andb_true_r in Ha. rewrite foldl_snoc.
      destruct (IH Hh) as [IHs IHf].
      destruct (perform_without_start a _ Ha IHs) as [Hs' Hf'].
      by rewrite Hf'. }
  split; [done|]. intros request Hin.
  assert (EStartNewSession request
          ∈ List.filter is_request (trace (world (after_actions history))))
    as Hin'.
  { apply list_elem_of_In, filter_In. split; [by apply list_elem_of_In|done]. }
  rewrite Hf in Hin'. by apply elem_of_nil in Hin'.
Qed.

Lemma perform_ready_session a (r : Provider) :
  (ready (state (world r)) = true ↔ is_Some (session (state (world r)))) →
  (ready (state (world (perform a r))) = true
   ↔ is_Some (session (state (world (perform a r))))).
Proof.
  intros Hw.
  assert (∀ ctx props,
            ready (state (world_after (request_session ctx props (world r))))
            = true
            ↔ is_Some (session (state (world_after
                                         (request_session ctx props (world r))))))
    as Hrequest.
  { intros ctx props. run_history. by destruct (server ctx) as [srv|]. }
  destruct a as [ctx props|ctx props| | | |props| |k].
  - unfold perform, act, mbind, M_bind, bind, get. cbv beta iota zeta.
    cbn [world].
    destruct (session (state (world r))) as [sess|] eqn:Hs; [|apply Hrequest].
    destruct (ready (state (world r))) eqn:Hr; [|apply Hrequest].
    cbn. by rewrite Hs, Hr.
  - unfold perform, act, mbind, M_bind, bind, get. cbv beta iota zeta.
    cbn [world]. destruct (_ || _); [done|apply Hrequest].
  - by run_history.
  - run_history. destruct (doRestart (state (world r))); cbn; [|done].
    destruct (session (state (world r))) as [sess|] eqn:Hs; cbn;
      rewrite ?Hs; done.
  - run_history.
    destruct (session (state (world r))) as [sess|] eqn:Hs; cbn;
      rewrite ?Hs; done.
  - run_history. destruct (effect_shutdown r); [|done].
    by destruct (effect_session r) as [sess|]; cbn.
  - run_history. destruct (effect_shutdown r); [|done].
    by destruct (effect_session r) as [sess|]; cbn.
  - run_history.
    destruct (pending r !! k) as [[srv [[sess|]|]|[specs|]|[[]|]|[[]|]]|];
      cbn; done.
Qed.

(** X11. Between any two steps of the provider, [ready] is true exactly
    when a session is stored: whatever operations are called, whichever
    effects run, the cleanup of the effect on [session] among them, and
    whichever of the pending promises settle, in whatever order. *)
Theorem ready_iff_session (history : list Action) :
  ready (state (world (after_actions history))) = true
  ↔ is_Some (session (state (world (after_actions history)))).
Proof.
  unfold after_actions. induction history as [|a history IH] using rev_ind.
  - cbn. split; [done|]. by intros [? ?].
  - rewrite foldl_snoc. by apply perform_ready_session.
Qed.

(** The operations of the provider, as they go when every promise settles
    at once, are histories in which each step that leaves a promise is
    followed by the settling of that promise. *)
Lemma answered_at_once ctx props (r : Provider) :
  pending r = [] →
  world (foldl (λ r a, perform a r) r [DoStart ctx props; Settle 0; Settle 0])
  = world_after (start ctx props (world r))
  ∧ world (foldl (λ r a, perform a r) r [DoAutoStart ctx props; Settle 0; Settle 0])
    = world_after (auto_start ctx props (world r))
  ∧ world (foldl (λ r a, perform a r) r [DoServiceRestart; Settle 0])
    = world_after (service_restart (world r))
  ∧ world (foldl (λ r a, perform a r) r [DoShutdown; Settle 0])
    = world_after (shutdown (world r)).
Proof.
  intros Hp. destruct r as [w p seen flag]. cbn in Hp. subst p.
  cbn [foldl world].
  unfold start, auto_start, service_restart, shutdown, startSession,
    on_session.
  split; [|split; [|split]].
  - run_history. destruct (session (state w)) as [sess|];
      [destruct (ready (state w))|]; cbn;
      try (by destruct (restart_settles sess));
      (destruct (server ctx) as [srv|]; cbn; [|done];
       destruct (startNewSession srv (session_request ctx props))
         as [[s|]|reason]; cbn; try done;
       by destruct (getKernelSpecs srv)).
  - run_history. destruct (_ || _); cbn; [done|].
    destruct (server ctx) as [srv|]; cbn; [|done].
    destruct (startNewSession srv (session_request ctx props))
      as [[s|]|reason]; cbn; try done.
    by destruct (getKernelSpecs srv).
  - run_history. destruct (doRestart (state w)); cbn; [|done].
    destruct (session (state w)) as [sess|]; cbn; [|done].
    by destruct (restart_settles sess) as [[]|].
  - run_history. destruct (session (state w)) as [sess|]; cbn; [|done].
    by destruct (shutdown_settles sess) as [[]|].
Qed.

End SessionMore.

Section SessionMoreRuns.
Import Session SessionHistory SessionSamples MoreSessionSamples.

Lemma session_started_keeps_error_witness :
  server serving = Some giving_server
  ∧ error (state failed_start)
    = Some "Could not start a session - available kernels: python3,ir"
  ∧ ∃ w',
      startSession serving default_props failed_start = Returned () w'
      ∧ session (state w') = Some live_session
      ∧ ready (state w') = true
      ∧ starting (state w') = false
      ∧ error (state w') = error (state failed_start)
      ∧ trace w' = trace failed_start
                     ++ [ESetStarting true;
                         EStartNewSession (session_request serving default_props);
                         ESetStarting false;
                         ESetSession (Some live_session);
                         ESetReady true].
Proof.
  split; [reflexivity|]. split; [reflexivity|].
  apply (session_started_keeps_error serving default_props failed_start
           giving_server live_session); reflexivity.
Defined.

Lemma server_rejections_are_dropped_witness :
  startSession failing default_props fresh =
  Returned ()
    {| state := {| starting := true; doRestart := false; restarting := false;
                   session := None; ready := false; error := None |};
       trace := [ESetStarting true;
                 EStartNewSession (session_request failing default_props)] |}
  ∧ startSession mute default_props fresh =
    Returned ()
      {| state := ThebeSessionProvider;
         trace := [ESetStarting true;
                   EStartNewSession (session_request mute default_props);
                   ESetStarting false;
                   EGetKernelSpecs] |}.
Proof.
  split.
  - exact (proj1 (proj2 (server_rejections_are_dropped failing default_props fresh))
             failing_server "connection lost" eq_refl eq_refl).
  - exact (proj2 (proj2 (server_rejections_are_dropped mute default_props fresh))
             mute_server "connection lost" eq_refl eq_refl eq_refl).
Defined.

Lemma auto_start_never_starts_first_witness :
  forallb no_start [DoAutoStart serving default_props; DoRestart;
                    DoServiceRestart; DoAutoStart serving default_props;
                    Settle 0; DoShutdown; DoSessionEffect default_props;
                    DoUnmount] = true
  ∧ starting (state (world (after_actions
                       [DoAutoStart serving default_props; DoRestart;
                        DoServiceRestart; DoAutoStart serving default_props;
                        Settle 0; DoShutdown; DoSessionEffect default_props;
                        DoUnmount]))) = false
  ∧ ∀ request,
      EStartNewSession request
        ∉ trace (world (after_actions
                   [DoAutoStart serving default_props; DoRestart;
                    DoServiceRestart; DoAutoStart serving default_props;
                    Settle 0; DoShutdown; DoSessionEffect default_props;
                    DoUnmount])).
Proof.
  split; [reflexivity|].
  apply (auto_start_never_starts_first
           [DoAutoStart serving default_props; DoRestart;
            DoServiceRestart; DoAutoStart serving default_props;
            Settle 0; DoShutdown; DoSessionEffect default_props;
            DoUnmount]).
  reflexivity.
Defined.

(** After [start], the effect finds [starting] set and asks for a second
    session while the first request is pending; of the two sessions given
    the second is the one kept. *)
Example start_then_effect_requests_twice :
  List.filter is_request
    (trace (world (after_actions [DoStart serving default_props;
                                  DoAutoStart serving default_props])))
  = [EStartNewSession (session_request serving default_props);
     EStartNewSession (session_request serving default_props)]
  ∧ length (pending (after_actions [DoStart serving default_props;
                                    DoAutoStart serving default_props])) = 2
  ∧ state (world (after_actions [DoStart serving default_props;
                                 DoAutoStart serving default_props;
                                 Settle 0; Settle 0]))
    = {| starting := false; doRestart := false; restarting := false;
         session := Some live_session; ready := true; error := None |}.
Proof. split; [|split]; vm_compute; reflexivity. Qed.

Example restart_of_stubborn_session_never_ends :
  restarting (state (world (after_actions
                       [DoStart serving default_props; Settle 0; DoRestart;
                        DoServiceRestart; Settle 0]))) = false
  ∧ restarting (state (world_after
                         (service_restart
                            (world_after (restart running_stubborn))))) = true.
Proof. split; reflexivity. Qed.

End SessionMoreRuns.

(** ** The callback refs of useNotebook *)

Section Refs.
Import NotebookRefs.
Context {NB : Type} `{!ThebeNotebook NB}.
Variable widgets : NB → list ThebeCell.

Lemma make_refs_lookup (cs : list ThebeCell) i :
  make_refs cs !! i
  = if decide (i < length cs) then Some (callback_ref cs i) else None.
Proof.
  unfold make_refs. rewrite list_lookup_imap. case_decide as Hi.
  - by rewrite (lookup_replicate_2 _ _ _ Hi).
  - assert (replicate (length cs) () !! i = None) as ->; [|done].
    apply lookup_replicate_None. lia.
Qed.

Lemma loaded_with_snoc (steps : list (Step (NB:=NB))) t :
  loaded_with (steps ++ [t])
  = match t with
    | BeginLoad => loaded_with steps
    | GotNotebook opts _ => Some opts
    end.
Proof.
  unfold loaded_with. rewrite omap_app. destruct t as [|opts nb]; cbn.
  - by rewrite app_nil_r.
  - by rewrite last_snoc.
Qed.

Lemma refs_made_by_the_load (steps : list (Step (NB:=NB))) :
  let s := foldl (step widgets) not_loaded steps in
  match loaded_with steps with
  | Some made => refs s = make_refs (ref_cells widgets made (notebook s))
  | None => refs s = [] ∧ notebook s = None
  end.
Proof.
  cbv zeta. induction steps as [|t steps IH] using rev_ind; [done|].
  rewrite foldl_snoc, loaded_with_snoc. by destruct t as [|opts nb].
Qed.

(** X12. The refs are made with the options of the render that began the
    load; the cell ids are read with the options of the last render.
    Whatever loads have begun or ended, and in whatever order their
    notebooks arrived, when the two say the same about
    [refsForWidgetsOnly] the hooks return as many refs as cell ids; the
    ref at a position does nothing when called with null, and called with
    a node it attaches the cell whose id is at that position: it never
    meets a cell that is not there. *)
Theorem refs_match_cellIds (opts : Opts) (steps : list (Step (NB:=NB))) :
  (∀ made, loaded_with steps = Some made →
           refsForWidgetsOnly made = refsForWidgetsOnly opts) →
  let s := foldl (step widgets) not_loaded steps in
  length (refs s) = length (cellIds widgets opts s)
  ∧ ∀ i r, refs s !! i = Some r →
      r None = RefNothing
      ∧ ∃ cellId, cellIds widgets opts s !! i = Some cellId
                  ∧ ∀ node, r (Some node) = RefAttached cellId node.
Proof.
  intros Hopts. cbv zeta.
  assert (∀ s : LoadState (NB:=NB),
            refs s = make_refs (ref_cells widgets opts (notebook s)) →
            length (refs s) = length (cellIds widgets opts s)
            ∧ ∀ i r, refs s !! i = Some r →
                r None = RefNothing
                ∧ ∃ cellId, cellIds widgets opts s !! i = Some cellId
                            ∧ ∀ node, r (Some node) = RefAttached cellId node)
    as Haligned.
  { intros s Hs. unfold cellIds. rewrite Hs.
    generalize (ref_cells widgets opts (notebook s)). intros cs. split.
    - unfold make_refs. by rewrite length_imap, length_replicate, length_fmap.
    - intros i r. rewrite make_refs_lookup. case_decide as Hi; [|done].
      intros [= <-]. split; [done|].
      destruct (lookup_lt_is_Some_2 cs i Hi) as [c Hc].
      exists (cell_id c). split; [by rewrite list_lookup_fmap, Hc|].
      intros node. cbn. by rewrite Hc. }
  apply Haligned.
  pose proof (refs_made_by_the_load steps) as Hmade. cbv zeta in Hmade.
  destruct (loaded_with steps) as [made|].
  - rewrite Hmade. unfold ref_cells. by rewrite (Hopts made eq_refl).
  - destruct Hmade as [-> ->]. unfold ref_cells. cbn.
    by destruct (refsForWidgetsOnly opts).
Qed.

End Refs.

Section RefsRuns.
Import NotebookRefs RefSamples Samples.

(** Two loads whose notebooks arrive one after the other, read with the
    options of the second. *)
Lemma refs_match_cellIds_witness :
  let s := foldl (step first_is_widget) not_loaded
             [BeginLoad; BeginLoad; GotNotebook all_cells one_cell_notebook;
              GotNotebook widgets_only three_cells] in
  length (refs s) = length (cellIds first_is_widget widgets_only s)
  ∧ ∀ i r, refs s !! i = Some r →
      r None = RefNothing
      ∧ ∃ cellId, cellIds first_is_widget widgets_only s !! i = Some cellId
                  ∧ ∀ node, r (Some node) = RefAttached cellId node.
Proof.
  apply (refs_match_cellIds first_is_widget widgets_only
           [BeginLoad; BeginLoad; GotNotebook all_cells one_cell_notebook;
            GotNotebook widgets_only three_cells]).
  by intros made [= <-].
Defined.

(** Read with other options than the load was begun with, the refs and
    the cell ids differ in number. *)
Example refs_differ_when_options_change :
  let s := foldl (step first_is_widget) not_loaded
             [BeginLoad; GotNotebook widgets_only three_cells] in
  length (refs s) = 1
  ∧ cellIds first_is_widget all_cells s = ["a"; "b"; "c"].
Proof. split; reflexivity. Qed.

End RefsRuns.

(** ** Finding the cells of a page *)

Section FindCells.
Import UI Pairing.
Variable matches : string → Element → bool.
Variable randomId : nat → string.

(** X13. [findCells] gives one item per source element, in page order: the
    item at a position has the source element at that position, the output
    element at that position when there is one and none otherwise, no [ui],
    and the next id drawn.  Output elements beyond the number of source
    elements go unused. *)
Theorem findCells_pairs_in_order (selector outputSelector : string)
    (drawn : nat) (b : Browser) :
  let cellEls := querySelectorAll matches selector b in
  let outputEls := querySelectorAll matches outputSelector b in
  let items := findCells matches randomId selector outputSelector drawn b in
  length items = length cellEls
  ∧ id <$> items = randomId <$> seq drawn (length cellEls)
  ∧ (λ it, source (placeholders it)) <$> items = handle <$> cellEls
  ∧ ∀ i it, items !! i = Some it →
      ui it = None
      ∧ output (placeholders it) = handle <$> outputEls !! i.
Proof.
  cbv zeta. unfold findCells.
  generalize (querySelectorAll matches selector b)
             (querySelectorAll matches outputSelector b).
  intros cellEls outputEls. split; [apply length_imap|]. split; [|split].
  - rewrite fmap_imap. cbn. apply (imap_seq cellEls randomId drawn).
  - rewrite fmap_imap. cbn. apply imap_const.
  - intros i it. rewrite list_lookup_imap.
    destruct (cellEls !! i) as [el|]; [|done]. intros [= <-]. cbn.
    split; [done|]. case_bool_decide as Hi; [done|].
    symmetry. apply fmap_None, lookup_ge_None. lia.
Qed.

End FindCells.

Section FindCellsRuns.
Import UI Pairing UISamples MoreUISamples.

Example findCells_two_sources_one_output :
  findCells by_attribute numbered "data-executable" "data-output" 1
            page_with_output
  = [ {| id := "i"; placeholders := mkPlaceholders 0 (Some 2); ui := None |};
      {| id := "ii"; placeholders := mkPlaceholders 1 None; ui := None |} ].
Proof. reflexivity. Qed.

End FindCellsRuns.

(** ** More on the cell user interface *)

Section UIMore.
Import UI UIFacts.
Context {NB : Type} `{!ThebeNotebook NB}.

Lemma subtree_unfold e : subtree e = e :: flat_map subtree (children e).
Proof. by destruct e. Qed.

Lemma tree_all_unfold P e :
  tree_all P e ↔ P e ∧ Forall (tree_all P) (children e).
Proof.
  unfold tree_all. rewrite subtree_unfold, Forall_cons.
  by rewrite List.Forall_flat_map.
Qed.

Lemma page_all_unfold P b : page_all P b ↔ Forall (tree_all P) (document b).
Proof. unfold page_all. by rewrite List.Forall_flat_map. Qed.

Abbreviation clean := (tree_all no_dotted_class).

Lemma clean_replace_in h new e : clean new → clean e → clean (replace_in h new e).
Proof.
  intros Hnew. induction e as [e IH] using Element_children_ind.
  rewrite (tree_all_unfold _ e). intros [He Hcs].
  destruct e as [hd tag attrs cl vis txt oc cs]. cbn [children] in *.
  cbn [replace_in handle]. case_bool_decide; [done|].
  apply tree_all_unfold. split; [exact He|]. cbn [with_children children].
  apply Forall_fmap. clear He. induction cs as [|c cs IHcs]; [constructor|].
  apply Forall_cons in IH as [IHc IH]. apply Forall_cons in Hcs as [Hc Hcs].
  constructor; [by apply IHc|by apply IHcs].
Qed.

Lemma clean_update h f e :
  (∀ x, classList (f x) = classList x ∧ children (f x) = children x) →
  clean e → clean (update h f e).
Proof.
  intros Hf. induction e as [e IH] using Element_children_ind.
  rewrite (tree_all_unfold _ e). intros [He Hcs].
  destruct e as [hd tag attrs cl vis txt oc cs]. cbn [children] in *.
  assert (clean (with_children (mkElement hd tag attrs cl vis txt oc cs)
                               (map (update h f) cs))) as Hclean.
  { apply tree_all_unfold. split; [exact He|]. cbn [with_children children].
    apply Forall_fmap. clear He. induction cs as [|c cs IHcs]; [constructor|].
    apply Forall_cons in IH as [IHc IH]. apply Forall_cons in Hcs as [Hc Hcs].
    constructor; [by apply IHc|by apply IHcs]. }
  cbn [update handle children]. case_bool_decide; [|exact Hclean].
  apply tree_all_unfold in Hclean as [Hx Hxs].
  destruct (Hf (with_children (mkElement hd tag attrs cl vis txt oc cs)
                              (map (update h f) cs))) as [Hcl Hch].
  apply tree_all_unfold. rewrite Hch. split; [|exact Hxs].
  unfold no_dotted_class in *. by rewrite Hcl.
Qed.

Lemma clean_setAttribute k v e : clean e → clean (setAttribute k v e).
Proof. rewrite !tree_all_unfold. by destruct e. Qed.

Lemma clean_with_textContent t e : clean e → clean (with_textContent t e).
Proof. rewrite !tree_all_unfold. by destruct e. Qed.

Lemma clean_with_onclick f e : clean e → clean (with_onclick f e).
Proof. rewrite !tree_all_unfold. by destruct e. Qed.

Lemma clean_append child parent :
  clean child → clean parent → clean (append child parent).
Proof.
  rewrite !(tree_all_unfold _ parent), (tree_all_unfold _ (append child parent)).
  intros Hc [Hp Hps]. destruct parent. cbn in *. split; [done|].
  apply Forall_app. split; [done|]. by constructor.
Qed.

Lemma classList_add_subset tokens e x :
  x ∈ classList (classList_add tokens e) → x ∈ classList e ∨ x ∈ tokens.
Proof.
  destruct e as [hd tag attrs cl vis txt oc cs]. cbn [classList_add classList].
  revert cl. induction tokens as [|t tokens IH]; intros cl; cbn [foldl].
  - by left.
  - intros Hx. apply IH in Hx as [Hx|Hx].
    + case_bool_decide; [by left|].
      apply elem_of_app in Hx as [Hx|Hx]; [by left|].
      apply list_elem_of_singleton in Hx as ->. right. apply list_elem_of_here.
    + right. by apply list_elem_of_further.
Qed.

Lemma clean_classList_add tokens e :
  ".thebe-busy" ∉ tokens → clean e → clean (classList_add tokens e).
Proof.
  intros Ht. rewrite !tree_all_unfold. intros [He Hcs]. split.
  - intros Hin. apply classList_add_subset in Hin as [Hin|Hin]; [by apply He|done].
  - by destruct e.
Qed.

(** The rules by which [keeps] is established. *)
Lemma keeps_ret {A} (I : Browser → Prop) (Q : A → Prop) (a : A) :
  Q a → keeps I (mret a) Q.
Proof. intros Ha b Hb. by split. Qed.

Lemma keeps_bind {A B} (I : Browser → Prop) (Q : A → Prop) (R : B → Prop)
    (m : UI A) (f : A → UI B) :
  keeps I m Q → (∀ a, Q a → keeps I (f a) R) → keeps I (m ≫= f) R.
Proof.
  intros Hm Hf b Hb. unfold mbind, UI_bind. destruct (Hm b Hb) as [Ha Hb'].
  destruct (m b) as [a b']. by apply Hf.
Qed.

Lemma keeps_weaken {A} (I : Browser → Prop) (Q R : A → Prop) (m : UI A) :
  keeps I m Q → (∀ a, Q a → R a) → keeps I m R.
Proof. intros Hm HQR b Hb. destruct (Hm b Hb). split; auto. Qed.

Abbreviation page_clean := (page_all no_dotted_class).

Lemma keeps_createElement tag : keeps page_clean (createElement tag) clean.
Proof.
  intros b Hb. split; [|exact Hb]. cbn. apply tree_all_unfold. cbn.
  split; [|constructor]. unfold no_dotted_class. cbn. apply not_elem_of_nil.
Qed.

Lemma keeps_emit e : keeps page_clean (emit e) (λ _, True).
Proof. intros b Hb. by split. Qed.

Lemma keeps_modify h f :
  (∀ x, classList (f x) = classList x ∧ children (f x) = children x) →
  keeps page_clean (modify h f) (λ _, True).
Proof.
  intros Hf b Hb. split; [done|]. apply page_all_unfold. cbn.
  apply page_all_unfold in Hb. apply Forall_fmap.
  eapply Forall_impl; [exact Hb|]. intros e He. by apply clean_update.
Qed.

Lemma keeps_replaceWith old new :
  clean new → keeps page_clean (replaceWith old new) (λ _, True).
Proof.
  intros Hnew b Hb. split; [done|]. unfold replaceWith, mbind, UI_bind, get.
  destruct (in_page old b); [|exact Hb].
  apply page_all_unfold. cbn. apply page_all_unfold in Hb. apply Forall_fmap.
  eapply Forall_impl; [exact Hb|]. intros e He. by apply clean_replace_in.
Qed.

Lemma slug_class_not_dotted slug : ".thebe-busy" ≠ "thebe-" +:+ slug +:+ "-button".
Proof. discriminate. Qed.

Lemma keeps_buildButton parent slug text title cb :
  clean parent →
  keeps page_clean (buildButton parent slug text title cb) (λ r, clean r.2).
Proof.
  intros Hp. unfold buildButton.
  eapply keeps_bind; [apply keeps_createElement|]. intros btn Hbtn.
  apply keeps_ret. cbn. apply clean_append; [|done].
  apply clean_with_onclick, clean_setAttribute, clean_with_textContent.
  apply clean_classList_add; [|done].
  intros Hin. apply elem_of_cons in Hin as [Hin|Hin]; [done|].
  apply list_elem_of_singleton in Hin. by apply slug_class_not_dotted in Hin.
Qed.

Lemma keeps_buildButtonBusySpinner parent :
  clean parent →
  keeps page_clean (buildButtonBusySpinner parent) (λ r, clean r.2).
Proof.
  intros Hp. unfold buildButtonBusySpinner.
  eapply keeps_bind; [apply keeps_createElement|]. intros outer Houter.
  eapply keeps_bind; [apply keeps_createElement|]. intros inner Hinner.
  apply keeps_ret. cbn. apply clean_append; [|done].
  apply clean_append.
  - apply clean_classList_add; [|done].
    intros Hin. by apply list_elem_of_singleton in Hin.
  - apply clean_classList_add; [|done].
    intros Hin. by apply list_elem_of_singleton in Hin.
Qed.

Lemma keeps_setupCodemirror options it cell el :
  keeps page_clean (setupCodemirror options it cell el) (λ _, True).
Proof.
  unfold setupCodemirror.
  eapply keeps_bind with (Q := λ _, True); [by intros b Hb|]. intros b0 _.
  eapply keeps_bind with (Q := λ _, True).
  { destruct (codeMirrorConfig options ≫= theme);
      [apply keeps_emit|by apply keeps_ret]. }
  intros _ _. eapply keeps_bind; [apply keeps_emit|]. intros _ _.
  eapply keeps_bind; [apply keeps_emit|]. intros _ _.
  destruct (default false (readOnly <$> codeMirrorConfig options));
    [|by apply keeps_ret].
  destruct (ui it) as [u|]; [|by apply keeps_ret].
  eapply keeps_bind; [apply keeps_modify; by intros []|]. intros _ _.
  apply keeps_modify. by intros [].
Qed.

Lemma keeps_mount (flag : bool) parent slug text title cb :
  clean parent →
  keeps page_clean
    (if flag
     then '(btn, box) ← buildButton parent slug text title cb;
          mret (Some (handle btn), box)
     else mret (None, parent))
    (λ r, clean r.2).
Proof.
  intros Hp. destruct flag; [|by apply keeps_ret].
  eapply keeps_bind; [by apply keeps_buildButton|].
  intros [btn box] Hbox. by apply keeps_ret.
Qed.

Lemma keeps_buildCellUI options it (notebook : NB) cell :
  keeps page_clean (buildCellUI options it notebook cell) (λ _, True).
Proof.
  unfold buildCellUI.
  eapply keeps_bind; [apply keeps_createElement|]. intros box Hbox.
  eapply keeps_bind; [apply keeps_createElement|]. intros editor Heditor.
  eapply keeps_bind; [apply keeps_setupCodemirror|]. intros _ _.
  assert (clean (append (classList_add ["thebe-input"] editor)
                        (setAttribute "id" (id it)
                           (classList_add ["thebe-cell"] box)))) as Hbox1.
  { apply clean_append.
    - apply clean_classList_add; [|done].
      intros Hin. by apply list_elem_of_singleton in Hin.
    - apply clean_setAttribute, clean_classList_add; [|done].
      intros Hin. by apply list_elem_of_singleton in Hin. }
  eapply keeps_bind; [by apply keeps_mount|]. intros [run box2] Hbox2.
  eapply keeps_bind; [by apply keeps_mount|]. intros [runAll box3] Hbox3.
  eapply keeps_bind; [by apply keeps_mount|]. intros [restart box4] Hbox4.
  eapply keeps_bind; [by apply keeps_mount|]. intros [restartAll box5] Hbox5.
  eapply keeps_bind; [by apply keeps_buildButtonBusySpinner|].
  intros [outer box6] Hbox6.
  eapply keeps_bind with (Q := λ r, clean r.2).
  { destruct (output (placeholders it)) as [o|]; [by apply keeps_ret|].
    eapply keeps_bind; [apply keeps_createElement|]. intros o Ho.
    apply keeps_ret. cbn. apply clean_append; [|done].
    apply clean_classList_add; [|done].
    intros Hin. by apply list_elem_of_singleton in Hin. }
  intros [out box7] Hbox7.
  eapply keeps_bind; [by apply keeps_replaceWith|]. intros _ _.
  eapply keeps_bind; [apply keeps_emit|]. intros _ _.
  by apply keeps_ret.
Qed.

Lemma keeps_renderAllCells options (notebook : NB) items :
  keeps page_clean (renderAllCells options notebook items) (λ _, True).
Proof.
  unfold renderAllCells. induction items as [|it items IH]; [by apply keeps_ret|].
  cbn [map_in_order].
  eapply keeps_bind with (Q := λ _, True).
  { unfold renderCell. destruct (getCellById notebook (id it));
      [apply keeps_buildCellUI|by apply keeps_ret]. }
  intros it' _. eapply keeps_bind; [exact IH|]. intros its' _.
  by apply keeps_ret.
Qed.

(** X14. On a page none of whose elements had the class [.thebe-busy], dot
    included, before [renderAllCells] rendered it, [getButtonsBusy] finds
    nothing for any id: [setButtonsBusy] and the timer set by
    [clearButtonsBusy] leave the browser exactly as it is.  The indicators
    built by [buildButtonBusySpinner] are never made visible or hidden. *)
Theorem busy_indicator_never_found options (notebook : NB)
    (items : list CellDOMItem) (b : Browser) (cellId : string) :
  page_all no_dotted_class b →
  let b' := (renderAllCells options notebook items b).2 in
  page_all no_dotted_class b'
  ∧ getButtonsBusy cellId b' = None
  ∧ setButtonsBusy cellId b' = ((), b')
  ∧ run_task (HideBusy cellId) b' = ((), b').
Proof.
  intros Hb b'.
  assert (page_all no_dotted_class b') as Hb'.
  { apply (keeps_renderAllCells options notebook items b Hb). }
  split; [exact Hb'|].
  assert (∀ e, e ∈ flat_map subtree (document b') → ".thebe-busy" ∉ classList e)
    as Hnone.
  { intros e He. unfold page_all in Hb'. rewrite Forall_forall in Hb'.
    by apply Hb'. }
  destruct (setButtonsBusy_without_dotted_class cellId b' Hnone) as [Hget Hset].
  split; [exact Hget|]. split; [exact Hset|].
  unfold run_task, mbind, UI_bind, get. by rewrite Hget.
Qed.

End UIMore.

Section BusyIndicator.
Import UI UIFacts.

Lemma blank_update h v e : blank (update h (with_visibility v) e) = blank e.
Proof.
  induction e as [e IH] using Element_children_ind.
  destruct e as [hd tag attrs cl vis txt oc cs]. cbn [children] in IH.
  assert (map blank (map (update h (with_visibility v)) cs) = map blank cs) as Hcs.
  { induction cs as [|c cs IHcs]; [done|].
    apply Forall_cons in IH as [IHc IH]. cbn [map]. by rewrite IHc, IHcs. }
  cbn [update handle children]. case_bool_decide; cbn; by rewrite Hcs.
Qed.

Lemma blank_modify h v (b : Browser) :
  let b' := (modify h (with_visibility v) b).2 in
  blank <$> document b' = blank <$> document b
  ∧ blank <$> detached b' = blank <$> detached b
  ∧ next_handle b' = next_handle b
  ∧ timers b' = timers b
  ∧ now b' = now b
  ∧ calls b' = calls b.
Proof.
  assert (∀ l : list Element,
            blank <$> (update h (with_visibility v) <$> l) = blank <$> l) as Hl.
  { intros l. rewrite <- list_fmap_compose. apply list_fmap_ext.
    intros i e _. apply blank_update. }
  cbv zeta. unfold modify, mbind, UI_bind, get, set_elements.
  cbn [snd document detached next_handle timers now calls].
  by rewrite !Hl.
Qed.

(** X15. [setButtonsBusy], and the timer task that [clearButtonsBusy] sets,
    change at most the [style.visibility] of elements: with every
    visibility unset, the page and the elements outside it are as before,
    and so are the timers, the clock and the calls made. *)
Theorem busy_calls_touch_visibility_only (cellId : string) (b : Browser) :
  (let b' := (setButtonsBusy cellId b).2 in
   blank <$> document b' = blank <$> document b
   ∧ blank <$> detached b' = blank <$> detached b
   ∧ next_handle b' = next_handle b
   ∧ timers b' = timers b
   ∧ now b' = now b
   ∧ calls b' = calls b)
  ∧ (let b' := (run_task (HideBusy cellId) b).2 in
     blank <$> document b' = blank <$> document b
     ∧ blank <$> detached b' = blank <$> detached b
     ∧ next_handle b' = next_handle b
     ∧ timers b' = timers b
     ∧ now b' = now b
     ∧ calls b' = calls b).
Proof.
  split; cbv zeta; unfold setButtonsBusy, run_task, mbind, UI_bind, get;
    destruct (getButtonsBusy cellId b) as [busy|];
    solve [apply blank_modify | done].
Qed.

Lemma run_task_with_timers t ts b :
  run_task t (with_timers ts b) = ((), with_timers ts (run_task t b).2).
Proof.
  destruct t as [id]. unfold run_task, mbind, UI_bind, get.
  change (getButtonsBusy id (with_timers ts b)) with (getButtonsBusy id b).
  by destruct (getButtonsBusy id b).
Qed.

Lemma run_tasks_with_timers l : ∀ ts b,
  run_tasks l (with_timers ts b) = ((), with_timers ts (run_tasks l b).2).
Proof.
  induction l as [|t l IH]; intros ts b; [done|].
  cbn [run_tasks]. unfold mbind, UI_bind. rewrite run_task_with_timers.
  destruct (run_task t b) as [[] b1]. cbn. apply IH.
Qed.

Lemma run_tasks_app l1 l2 b :
  run_tasks (l1 ++ l2) b = run_tasks l2 (run_tasks l1 b).2.
Proof.
  revert b. induction l1 as [|t l1 IH]; intros b; [done|].
  cbn [run_tasks app]. unfold mbind, UI_bind.
  destruct (run_task t b) as [[] b1]. apply IH.
Qed.

Lemma run_task_timers t b : timers (run_task t b).2 = timers b.
Proof.
  destruct t as [id]. unfold run_task, mbind, UI_bind, get.
  by destruct (getButtonsBusy id b).
Qed.

Lemma run_tasks_timers l : ∀ b, timers (run_tasks l b).2 = timers b.
Proof.
  induction l as [|t l IH]; intros b; [done|].
  cbn [run_tasks]. unfold mbind, UI_bind.
  pose proof (run_task_timers t b) as Ht.
  destruct (run_task t b) as [[] b1]. rewrite IH. exact Ht.
Qed.

Lemma with_timers_same b : with_timers (timers b) b = b.
Proof. by destruct b. Qed.

(** X16. [clearButtonsBusy] changes nothing at once but the pending timers.
    When less than 3000 ms pass, everything goes as it would have gone
    without it, and its timer is still pending; when 3000 ms or more pass,
    its task runs then, after the tasks of the timers set before it. *)
Theorem clearButtonsBusy_waits (cellId : string) (b : Browser) (ms : nat) :
  let hide := (now b + 3000, HideBusy cellId) in
  clearButtonsBusy cellId b = ((), with_timers (timers b ++ [hide]) b)
  ∧ (ms < 3000 →
     elapse ms (clearButtonsBusy cellId b).2
     = ((), with_timers (timers (elapse ms b).2 ++ [hide]) (elapse ms b).2))
  ∧ (3000 ≤ ms →
     elapse ms (clearButtonsBusy cellId b).2
     = run_task (HideBusy cellId) (elapse ms b).2).
Proof.
  cbv zeta. split; [reflexivity|].
  set (B := {| document := document b; detached := detached b;
               next_handle := next_handle b;
               timers := List.filter (λ '(t, _), bool_decide (now b + ms < t))
                                     (timers b);
               now := now b + ms; calls := calls b |}).
  set (due := List.filter (λ '(t, _), bool_decide (t ≤ now b + ms)) (timers b)).
  assert (elapse ms b = run_tasks due.*2 B) as Hb by reflexivity.
  split; intros Hms.
  - transitivity (run_tasks due.*2
                    (with_timers (timers B ++ [(now b + 3000, HideBusy cellId)]) B)).
    + unfold clearButtonsBusy, setTimeout, elapse. cbn.
      rewrite !List.filter_app. cbn.
      rewrite (bool_decide_eq_false_2 (now b + 3000 ≤ now b + ms)) by lia.
      rewrite (bool_decide_eq_true_2 (now b + ms < now b + 3000)) by lia.
      rewrite app_nil_r. reflexivity.
    + rewrite run_tasks_with_timers, Hb, run_tasks_timers. reflexivity.
  - transitivity (run_tasks (due.*2 ++ [HideBusy cellId]) B).
    + unfold clearButtonsBusy, setTimeout, elapse. cbn.
      rewrite !List.filter_app. cbn.
      rewrite (bool_decide_eq_true_2 (now b + 3000 ≤ now b + ms)) by lia.
      rewrite (bool_decide_eq_false_2 (now b + ms < now b + 3000)) by lia.
      rewrite app_nil_r, fmap_app. reflexivity.
    + rewrite run_tasks_app, Hb. cbn [run_tasks]. unfold mbind, UI_bind.
      by destruct (run_task (HideBusy cellId) (run_tasks due.*2 B).2) as [[] b2].
Qed.

End BusyIndicator.

Section BusyRuns.
Import UI UIFacts UISamples BusySamples.

Lemma busy_indicator_never_found_witness :
  page_all no_dotted_class page
  ∧ page_all no_dotted_class rendered
  ∧ getButtonsBusy "cell-1" rendered = None
  ∧ setButtonsBusy "cell-1" rendered = ((), rendered)
  ∧ run_task (HideBusy "cell-1") rendered = ((), rendered).
Proof.
  assert (page_all no_dotted_class page) as Hpage.
  { repeat constructor; intros Hin; by apply elem_of_nil in Hin. }
  split; [exact Hpage|].
  exact (busy_indicator_never_found all_buttons one_cell
           [found_item; stray_item] page "cell-1" Hpage).
Defined.

Lemma clearButtonsBusy_waits_witness :
  visibility <$> deref 1 shown = Some "visible"
  ∧ visibility <$> deref 1 (elapse 2999 (clearButtonsBusy "c" shown).2).2
    = Some "visible"
  ∧ visibility <$> deref 1 (elapse 3000 (clearButtonsBusy "c" shown).2).2
    = Some "hidden".
Proof.
  destruct (clearButtonsBusy_waits "c" shown 2999) as (_ & Hearly & _).
  destruct (clearButtonsBusy_waits "c" shown 3000) as (_ & _ & Hlate).
  rewrite Hearly by (apply Nat.ltb_lt; vm_compute; reflexivity).
  rewrite Hlate by (apply Nat.leb_le; vm_compute; reflexivity).
  split; [vm_compute; reflexivity|]. split; vm_compute; reflexivity.
Defined.

End BusyRuns.

(** ** What buildCellUI returns and leaves behind *)

Section BuiltCells.
Import UI UIFacts.
Context {NB : Type} `{!ThebeNotebook NB}.

(** What holds of the outcome of every continuation, for the results the
    first part can give, holds of the outcome of the whole. *)
Lemma bind_outcome {A B} (Q : A → Prop) (P : B * Browser → Prop)
    (m : UI A) (f : A → UI B) b :
  (∀ b0, Q (m b0).1) → (∀ a b', Q a → P (f a b')) → P ((m ≫= f) b).
Proof.
  intros Hm Hf. unfold mbind, UI_bind. specialize (Hm b).
  destruct (m b) as [a b']. by apply Hf.
Qed.

Lemma mount_outcome (flag : bool) parent slug text title cb b :
  is_Some ((if flag
            then '(btn, box) ← buildButton parent slug text title cb;
                 mret (Some (handle btn), box)
            else mret (None, parent)) b).1.1
  ↔ flag = true.
Proof.
  destruct flag.
  - split; [done|]. intros _.
    apply (bind_outcome (λ _, True) (λ r, is_Some r.1.1)); [done|].
    intros [btn box] b' _. cbn. by eexists.
  - cbn. split; [by intros [? ?]|done].
Qed.

Lemma buildCellUI_same_item options it (notebook : NB) cell b :
  id (buildCellUI options it notebook cell b).1 = id it
  ∧ placeholders (buildCellUI options it notebook cell b).1 = placeholders it.
Proof.
  unfold buildCellUI.
  do 3 (apply (bind_outcome (λ _, True)); [done|]; intros ? ? _).
  do 6 (apply (bind_outcome (λ _, True)); [done|]; intros [? ?] ? _).
  do 2 (apply (bind_outcome (λ _, True)); [done|]; intros ? ? _).
  done.
Qed.

(** X17. The item [buildCellUI] returns has the id and the placeholders of
    the item it was given and a [ui]; each of the four buttons is in it
    exactly when the option to mount it is set; its output element is the
    output placeholder when the item has one; and the last thing done is
    the call of [attachToDOM] on the cell with that output element. *)
Theorem buildCellUI_returns options it (notebook : NB) cell b :
  ∃ u,
    (buildCellUI options it notebook cell b).1
      = {| id := id it; placeholders := placeholders it; ui := Some u |}
    ∧ (is_Some (run (buttons u)) ↔ mountRunButton options = true)
    ∧ (is_Some (runAll (buttons u)) ↔ mountRunAllButton options = true)
    ∧ (is_Some (restart (buttons u)) ↔ mountRestartButton options = true)
    ∧ (is_Some (restartAll (buttons u)) ↔ mountRestartallButton options = true)
    ∧ (∀ o, output (placeholders it) = Some o → ui_output u = o)
    ∧ last (calls (buildCellUI options it notebook cell b).2)
      = Some (EAttachToDOM (cell_id cell) (ui_output u)).
Proof.
  unfold buildCellUI.
  do 3 (apply (bind_outcome (λ _, True)); [done|]; intros ? ? _).
  apply (bind_outcome (λ r, is_Some r.1 ↔ mountRunButton options = true));
    [intros; apply mount_outcome|]. intros [run box2] b2 Hrun.
  apply (bind_outcome (λ r, is_Some r.1 ↔ mountRunAllButton options = true));
    [intros; apply mount_outcome|]. intros [runAll box3] b3 HrunAll.
  apply (bind_outcome (λ r, is_Some r.1 ↔ mountRestartButton options = true));
    [intros; apply mount_outcome|]. intros [restart box4] b4 Hrestart.
  apply (bind_outcome (λ r, is_Some r.1 ↔ mountRestartallButton options = true));
    [intros; apply mount_outcome|]. intros [restartAll box5] b5 HrestartAll.
  apply (bind_outcome (λ _, True)); [done|]. intros [outer box6] b6 _.
  apply (bind_outcome (λ r, ∀ o, output (placeholders it) = Some o → r.1 = o)).
  { intros b0. destruct (output (placeholders it)) as [o|].
    - cbn. by intros ? [= <-].
    - done. }
  intros [out box7] b7 Hout.
  apply (bind_outcome (λ _, True)); [done|]. intros _ b8 _.
  unfold mbind, UI_bind, mret, UI_ret, emit. cbn in *.
  eexists. split; [reflexivity|]. cbn.
  split; [exact Hrun|]. split; [exact HrunAll|]. split; [exact Hrestart|].
  split; [exact HrestartAll|]. split; [exact Hout|]. by rewrite last_snoc.
Qed.

(** X18. [renderAllCells] gives back as many items as it was given, with
    the same ids and placeholders in the same order; an item whose id is
    the id of a cell has its [ui] set, any other item is untouched. *)
Theorem renderAllCells_keeps_items options (notebook : NB)
    (items : list CellDOMItem) (b : Browser) :
  let rendered := (renderAllCells options notebook items b).1 in
  id <$> rendered = id <$> items
  ∧ placeholders <$> rendered = placeholders <$> items
  ∧ Forall2 (λ it r,
               match getCellById notebook (id it) with
               | Some _ => is_Some (ui r)
               | None => r = it
               end)
            items rendered.
Proof.
  cbv zeta. unfold renderAllCells. revert b.
  induction items as [|it items IH]; intros b; [by repeat split|].
  cbn [map_in_order]. unfold mbind, UI_bind, mret, UI_ret.
  assert (id (renderCell options notebook it b).1 = id it
          ∧ placeholders (renderCell options notebook it b).1 = placeholders it
          ∧ match getCellById notebook (id it) with
            | Some _ => is_Some (ui (renderCell options notebook it b).1)
            | None => (renderCell options notebook it b).1 = it
            end) as (Hid & Hph & Hui).
  { unfold renderCell. destruct (getCellById notebook (id it)) as [cell|].
    - destruct (buildCellUI_same_item options it notebook cell b).
      split; [done|]. split; [done|]. apply buildCellUI_has_ui.
    - done. }
  destruct (renderCell options notebook it b) as [r b1]. cbn in Hid, Hph, Hui.
  destruct (IH b1) as (IHid & IHph & IHui).
  destruct (map_in_order (renderCell options notebook) items b1) as [rs b2].
  cbn in *. rewrite Hid, Hph, IHid, IHph. repeat split. by constructor.
Qed.

Abbreviation page_is D := (λ x : Browser, document x = D).





End BuiltCells.

Section BuiltCellsRuns.
Import UI UIFacts UISamples MoreUISamples.


End BuiltCellsRuns.

(** ** The SQL tokenizer *)

Section SqlTokens.
Import Sql SqlFacts.
#[local] Open Scope Z_scope.

Lemma X_from_cons n c rest t a :
  X_from n (c :: rest) t a
  = if (Z.of_nat c =? t) && negb n then rest
    else X_from (a && negb n && (92 =? Z.of_nat c)) rest t a.
Proof. reflexivity. Qed.

Lemma X_from_unit t a c l :
  c ≠ t → (a = true → c ≠ 92%nat) →
  X_from false (c :: l) (Z.of_nat t) a = X_from false l (Z.of_nat t) a.
Proof.
  intros Hc Hesc. rewrite X_from_cons.
  assert ((Z.of_nat c =? Z.of_nat t) = false) as ->
    by (apply Z.eqb_neq; lia).
  assert (a && negb false && (92 =? Z.of_nat c) = false) as ->; [|done].
  destruct a; [specialize (Hesc eq_refl)|done]. cbn [negb andb]. apply Z.eqb_neq. lia.
Qed.

Lemma X_from_escaped t c l :
  t ≠ 92%nat →
  X_from false (92%nat :: c :: l) (Z.of_nat t) true
  = X_from false l (Z.of_nat t) true.
Proof.
  intros Ht. rewrite !X_from_cons.
  assert ((Z.of_nat 92 =? Z.of_nat t) = false) as ->
    by (apply Z.eqb_neq; lia).
  change (92 =? Z.of_nat 92) with true. cbn [negb andb].
  by rewrite andb_false_r.
Qed.

(** X20. [X] reads a quoted literal to its end: past the first quote that
    is not inside, where inside are the code units other than the quote
    and, when backslashes escape, each backslash with the code unit after
    it; and to the end of the input when no quote closes the literal. *)
Theorem X_reads_the_literal (t : nat) (a : bool) (body rest : list nat) :
  Inside t a body →
  X (body ++ t :: rest) (Z.of_nat t) a = rest
  ∧ X body (Z.of_nat t) a = [].
Proof.
  unfold X. induction 1 as [|c body Hc Hesc _ IH|c body Ha Ht _ IH].
  - split; [|done]. rewrite app_nil_l, X_from_cons. by rewrite Z.eqb_refl.
  - rewrite <- app_comm_cons, !X_from_unit by done. exact IH.
  - subst a. rewrite <- !app_comm_cons, !X_from_escaped by done. exact IH.
Qed.

(** *** Every helper leaves a part of the input it was given *)

Lemma advance_suffix n e : advance n e `suffix_of` e.
Proof. apply suffix_drop. Qed.

Lemma advance_while_suffix test e : advance_while test e `suffix_of` e.
Proof.
  induction e as [|c e IH]; [done|]. cbn. destruct (test _); [|done].
  by apply suffix_cons_r.
Qed.

Lemma X_from_suffix n e t a : X_from n e t a `suffix_of` e.
Proof.
  revert n. induction e as [|c e IH]; intros n; [done|].
  rewrite X_from_cons. destruct (_ && _).
  - apply suffix_cons_r. done.
  - apply suffix_cons_r, IH.
Qed.

Lemma X_suffix e t a : X e t a `suffix_of` e.
Proof. apply X_from_suffix. Qed.

Lemma B_suffix e t : (B e t).2 `suffix_of` e.
Proof.
  revert t. induction e as [|c e IH]; intros t; [done|].
  cbn [B]. destruct (_ || _); [|done]. apply suffix_cons_r, IH.
Qed.

Lemma J_suffix e t : J e t `suffix_of` e.
Proof.
  unfold J. pose proof (advance_while_suffix (λ c, (48 =? c) || (49 =? c)) e).
  destruct t as [t|]; [|done]. destruct (_ && _); [|done].
  etrans; [apply advance_suffix|done].
Qed.

Lemma j_digits_suffix e t : j_digits e t `suffix_of` e.
Proof.
  revert t. induction e as [|c e IH]; intros t; [done|].
  cbn [j_digits]. destruct (46 =? _).
  - destruct t; [done|]. apply suffix_cons_r, IH.
  - destruct (_ || _); [done|]. apply suffix_cons_r, IH.
Qed.

Lemma j_suffix e t : j e t `suffix_of` e.
Proof.
  unfold j. pose proof (j_digits_suffix e t). destruct (_ || _); [|done].
  etrans; [apply advance_while_suffix|].
  etrans; [|done].
  destruct (negb _).
  - etrans; apply advance_suffix.
  - apply advance_suffix.
Qed.

Lemma R_suffix e : R e `suffix_of` e.
Proof. apply advance_while_suffix. Qed.

Lemma dollar_quoted_suffix e : dollar_quoted e `suffix_of` e.
Proof.
  induction e as [|c e IH]; [done|].
  cbn [dollar_quoted]. destruct e as [|c' e]; [done|].
  destruct (_ && _).
  - by do 2 apply suffix_cons_r.
  - apply suffix_cons_r, IH.
Qed.

Lemma block_comment_cons e a c t :
  block_comment e (a :: c :: t)
  = if (42 =? Z.of_nat a) && (47 =? Z.of_nat c) then
      if e - 1 =? 0 then t else block_comment (e - 1) t
    else if (47 =? Z.of_nat a) && (42 =? Z.of_nat c) then
      block_comment (e + 1) t
    else block_comment e (c :: t).
Proof. reflexivity. Qed.

Lemma block_comment_suffix e t : block_comment e t `suffix_of` t.
Proof.
  revert e. induction t as [t IH] using (induction_ltof1 _ length).
  unfold ltof in IH. intros e.
  destruct t as [|a [|c t]]; [done|apply suffix_nil|].
  rewrite block_comment_cons. destruct (_ && _).
  - destruct (_ =? 0).
    + by do 2 apply suffix_cons_r.
    + do 2 apply suffix_cons_r. apply IH. cbn. lia.
  - destruct (_ && _).
    + do 2 apply suffix_cons_r. apply IH. cbn. lia.
    + apply suffix_cons_r. apply IH. cbn. lia.
Qed.

Lemma charset_cast_suffix e a t : ahead (charset_cast e a t) `suffix_of` t.
Proof.
  revert a. induction t as [|c t IH]; intros a; [done|].
  cbn [charset_cast]. destruct (_ && _).
  - apply suffix_cons_r, X_suffix.
  - destruct (negb _); [done|]. apply suffix_cons_r, IH.
Qed.

Lemma charset_cast_token e a t v r :
  token (charset_cast e a t) = Some (v, r) → r = ahead (charset_cast e a t).
Proof.
  revert a. induction t as [|c t IH]; intros a; [done|].
  cbn [charset_cast]. destruct (_ && _).
  - by intros [= _ <-].
  - destruct (negb _); [done|]. apply IH.
Qed.

Lemma q_quoted_suffix e n : q_quoted e n `suffix_of` e.
Proof.
  induction e as [|c e IH]; [done|].
  cbn [q_quoted]. destruct (_ && _).
  - apply advance_suffix.
  - apply suffix_cons_r, IH.
Qed.

Lemma Z'_end t : Z' (-1) t = false.
Proof.
  unfold Z'. induction t as [|c t IH]; [done|]. cbn [existsb].
  rewrite IH, orb_false_r. apply Z.eqb_neq. lia.
Qed.

Create HintDb sql_suffix.
#[local] Hint Resolve advance_suffix advance_while_suffix X_suffix B_suffix
  J_suffix j_suffix R_suffix dollar_quoted_suffix block_comment_suffix
  charset_cast_suffix q_quoted_suffix : sql_suffix.

Lemma suffix_after (e1 e2 e3 : list nat) :
  e1 `suffix_of` e2 → e2 `suffix_of` e3 → e1 `suffix_of` e3.
Proof. intros. by etrans. Qed.

(** X21. Wherever it is called before the end of the input, the tokenizer
    reads at least one code unit, and a token it accepts ends where it
    stopped reading: no token is empty.  At the end of the input it reads
    nothing and accepts nothing. *)
Theorem E_reads_on (e : Dialect) (c : nat) (t : list nat) :
  ahead (E e (c :: t)) `suffix_of` t
  ∧ (∀ v r, token (E e (c :: t)) = Some (v, r) → r = ahead (E e (c :: t)))
  ∧ E e [] = no_token [].
Proof.
  split; [|split].
  - unfold E. change (advance 1 (c :: t)) with t.
    generalize (next (c :: t)). intros n. cbv zeta.
    repeat case_match; cbn [ahead acceptToken no_token];
      eauto 6 using suffix_after with sql_suffix.
    all: match goal with
         | H : B ?t ?x = (_, ?l) |- ?l `suffix_of` _ =>
             replace l with (B t x).2 by (by rewrite H); apply B_suffix
         end.
  - unfold E. change (advance 1 (c :: t)) with t.
    generalize (next (c :: t)). intros n v r. cbv zeta.
    repeat case_match; cbn [token ahead acceptToken no_token];
      try (by intros [= _ <-]); try done.
    apply charset_cast_token.
  - unfold E. change (next []) with (-1). change (advance 1 []) with (@nil nat).
    cbv zeta. rewrite !Z'_end.
    by destruct (plsqlQuotingMechanism e), (unquotedBitLiterals e).
Qed.

(** *** Words *)

Lemma word_unit_spec c :
  word_unit c = true ↔ c = 95 ∨ 65 ≤ c ≤ 90 ∨ 97 ≤ c ≤ 122 ∨ 48 ≤ c ≤ 57.
Proof.
  unfold word_unit, z.
  rewrite !orb_true_iff, !andb_true_iff, !Z.leb_le, Z.eqb_eq. lia.
Qed.

Lemma letter_spec c : letter c = true ↔ 65 ≤ c ≤ 90 ∨ 97 ≤ c ≤ 122.
Proof.
  unfold letter. rewrite !orb_true_iff, !andb_true_iff, !Z.leb_le. lia.
Qed.

Lemma B_reads_word w rest acc :
  Forall (λ c, word_unit (Z.of_nat c) = true) w →
  word_unit (next rest) = false →
  B (w ++ rest) (Some acc) = (Some (acc ++ w), rest).
Proof.
  intros Hw Hrest. revert acc.
  induction Hw as [|c w Hc _ IH]; intros acc.
  - rewrite app_nil_r, app_nil_l. destruct rest as [|c rest]; [done|].
    cbn [B]. change (word_unit (Z.of_nat c) = false) in Hrest.
    unfold word_unit in Hrest. by rewrite Hrest.
  - rewrite <- app_comm_cons. cbn [B].
    unfold word_unit in Hc. rewrite Hc. cbn [fmap option_fmap option_map].
    unfold fromCharCode. rewrite Nat2Z.id, IH.
    by rewrite <- app_assoc.
Qed.

Lemma Z'_no_letter n s :
  letter n = true → Forall (λ c, letter (Z.of_nat c) = false) s →
  Z' n s = false.
Proof.
  intros Hn Hs. unfold Z'. induction Hs as [|c s Hc _ IH]; [done|].
  cbn [existsb]. rewrite IH, orb_false_r. apply Z.eqb_neq. congruence.
Qed.

(** Decide the comparisons of the goal that the hypotheses settle. *)
Ltac settle_comparisons :=
  repeat match goal with
         | |- context [?k =? ?n] =>
             first [ replace (k =? n) with false
                       by (symmetry; apply Z.eqb_neq; lia)
                   | replace (k =? n) with true
                       by (symmetry; apply Z.eqb_eq; lia) ]
         | |- context [?k <=? ?n] =>
             first [ replace (k <=? n) with false
                       by (symmetry; apply Z.leb_gt; lia)
                   | replace (k <=? n) with true
                       by (symmetry; apply Z.leb_le; lia) ]
         end.

(** X22. A word is read whole and looked up without regard to case.  When
    the input begins with a letter [c] and the units [w] of a word after
    it, and what follows is no unit of a word (nor, after a single letter,
    a quote), then in a dialect none of whose operator, variable or quote
    characters is a letter the token ends after [w]; it is an
    [Identifier] when a dot follows, otherwise what the table of words
    has for the word in lower case, and an [Identifier] when it has
    nothing. *)
Theorem E_reads_words (e : Dialect) (c : nat) (w rest : list nat) :
  letter (Z.of_nat c) = true →
  Forall (λ c, word_unit (Z.of_nat c) = true) w →
  word_unit (next rest) = false →
  (w = [] → next rest ≠ 39 ∧ next rest ≠ 34) →
  Forall (λ c, letter (Z.of_nat c) = false)
         (operatorChars e ++ specialVar e ++ identifierQuotes e) →
  E e (c :: w ++ rest)
  = acceptToken
      (if 46 =? next rest then Identifier
       else default Identifier (words e !! toLowerCase (c :: w)))
      rest.
Proof.
  intros Hc Hw Hrest Hquote Hdialect.
  apply Forall_app in Hdialect as [Hop Hdialect].
  apply Forall_app in Hdialect as [Hvar Hquotes].
  assert (next (w ++ rest) ≠ 39 ∧ next (w ++ rest) ≠ 34) as [Hq1 Hq2].
  { destruct Hw as [|c' w Hc' _]; [by apply Hquote|].
    rewrite <- app_comm_cons. cbn [next].
    apply word_unit_spec in Hc'. lia. }
  unfold E. change (next (c :: w ++ rest)) with (Z.of_nat c).
  change (advance 1 (c :: w ++ rest)) with (w ++ rest). cbv zeta.
  rewrite (Z'_no_letter _ (operatorChars e)),
    (Z'_no_letter _ (specialVar e)), (Z'_no_letter _ (identifierQuotes e)),
    (Z'_no_letter _ L) by (done || by repeat constructor).
  assert (z (Z.of_nat c) = true) as ->.
  { unfold z. apply letter_spec in Hc.
    rewrite !orb_true_iff, !andb_true_iff, !Z.leb_le. lia. }
  rewrite (B_reads_word w rest) by done.
  unfold fromCharCode. rewrite Nat2Z.id.
  change (default [] (Some ([c] ++ w))) with (c :: w).
  apply letter_spec in Hc.
  generalize dependent (next (w ++ rest)). intros q Hq1 Hq2.
  generalize dependent (Z.of_nat c). intros n Hn.
  settle_comparisons. cbn [negb andb orb].
  rewrite ?andb_false_r, ?orb_true_r. cbn [negb andb orb].
  reflexivity.
Qed.

(** X23. A string literal is a [String] token in every dialect; with an
    [e] or [E] before the quote, the literal is read, backslashes
    escaping, and no token is accepted for it. *)
Theorem escape_strings_get_no_token (e : Dialect) (rest : list nat) :
  E e (39%nat :: rest) = acceptToken String' (X rest 39 (backslashEscapes e))
  ∧ E e (101%nat :: 39%nat :: rest) = no_token (X rest 39 true)
  ∧ E e (69%nat :: 39%nat :: rest) = no_token (X rest 39 true).
Proof.
  split; [|split].
  - unfold E. change (next (39%nat :: rest)) with 39.
    change (advance 1 (39%nat :: rest)) with rest. cbv zeta.
    change (Z' 39 L) with false. cbv iota.
    change (36 =? 39) with false. change (39 =? 39) with true.
    reflexivity.
  - reflexivity.
  - reflexivity.
Qed.

(** *** The table of words *)

Lemma set_words_lookup v s n w :
  set_words v s n !! w
  = if decide (w ∈ words_of s) then Some v else n !! w.
Proof.
  unfold set_words, words_of. revert n.
  induction (split 32 s) as [|t l IH]; intros n.
  - cbn. by rewrite decide_False by apply not_elem_of_nil.
  - cbn [foldl]. rewrite IH.
    assert (∀ f, List.filter f (t :: l)
                 = if f t then t :: List.filter f l else List.filter f l)
      as -> by done.
    set (found := List.filter _ l). destruct t as [|c t].
    + case_bool_decide; [|done]. cbn [negb]. done.
    + case_bool_decide; [done|]. cbn [negb].
      destruct (decide _) as [Hin|Hout].
      * rewrite decide_True; [done|]. apply list_elem_of_further, Hin.
      * destruct (decide (w = c :: t)) as [->|Hne].
        -- rewrite decide_True by apply list_elem_of_here.
           by rewrite lookup_insert_eq.
        -- rewrite decide_False.
           ++ by rewrite lookup_insert_ne.
           ++ intros [?|?]%elem_of_cons; [done|]. by apply Hout.
Qed.

(** X24. What the table of words has for a word: [Builtin] for a builtin,
    else [Type] for a type, else [Keyword] for a keyword, else [Bool] for
    true and false and [Null] for null and unknown, and nothing for any
    other word; a word named more than once is what the last of these
    makes it. *)
Theorem V_precedence (e t : JsString) (a : option JsString) (w : JsString) :
  V e t a !! w
  = if decide (w ∈ words_of (default [] a)) then Some Builtin
    else if decide (w ∈ words_of t) then Some Type'
    else if decide (w ∈ words_of e) then Some Keyword
    else if decide (w ∈ [codes "true"; codes "false"]) then Some Bool
    else if decide (w ∈ [codes "null"; codes "unknown"]) then Some Null
    else None.
Proof.
  unfold V. cbv zeta.
  rewrite !set_words_lookup.
  repeat (destruct (decide (w ∈ words_of _)); [done|]).
  destruct (decide (w = codes "null")) as [->|?]; [done|].
  rewrite lookup_insert_ne by done.
  destruct (decide (w = codes "unknown")) as [->|?]; [done|].
  rewrite lookup_insert_ne by done.
  destruct (decide (w = codes "true")) as [->|?]; [done|].
  rewrite lookup_insert_ne by done.
  destruct (decide (w = codes "false")) as [->|?]; [done|].
  rewrite lookup_insert_ne, lookup_empty by done.
  rewrite !decide_False; [done| |].
  - intros [?|[?|?%elem_of_nil]%elem_of_cons]%elem_of_cons; done.
  - intros [?|[?|?%elem_of_nil]%elem_of_cons]%elem_of_cons; done.
Qed.

(** *** Comments *)



End SqlTokens.

Section SqlRuns.
Import Sql SqlFacts.
#[local] Open Scope Z_scope.

(** The literal ['it\'s'] with what follows it, the opening quote read. *)
Lemma X_reads_the_literal_witness :
  X (codes "it\'s' x") 39 true = codes " x".
Proof.
  apply (X_reads_the_literal 39 true (codes "it\'s") (codes " x")).
  apply Inside_unit; [done|done|]. apply Inside_unit; [done|done|].
  apply Inside_escaped; [done|done|]. apply Inside_unit; [done|done|].
  apply Inside_nil.
Defined.

(** [Select] is the keyword, [select.] an identifier. *)
Lemma E_reads_words_witness :
  E everything (83%nat :: codes "elect" ++ codes " x")
  = acceptToken Keyword (codes " x")
  ∧ E everything (115%nat :: codes "elect" ++ codes ".x")
    = acceptToken Identifier (codes ".x").
Proof.
  split.
  - rewrite E_reads_words;
      [vm_compute; reflexivity|reflexivity|by repeat constructor
      |reflexivity|done|by repeat constructor].
  - rewrite E_reads_words;
      [vm_compute; reflexivity|reflexivity|by repeat constructor
      |reflexivity|done|by repeat constructor].
Defined.


(** Without the space it is not: the dashes are an operator. *)
Example dashes_without_space :
  E everything (codes "--x") = acceptToken Operator (codes "x")
  ∧ E defaults (codes "--x") = acceptToken LineComment [].
Proof. split; vm_compute; reflexivity. Qed.

End SqlRuns.

(** ** Messages *)

Section Messages.
Import Messaging.

(** X26. What the status of a message tells without its subject.  Within
    each enum the members stand for different strings.  Two statuses that
    stand for the same string are about the same subject, or about a
    session and a kernel, or about a notebook and a cell; so a server
    status is told from every other, [server-ready] from [ready], and the
    status of a session is told from that of a kernel, or a notebook's
    from a cell's, by the subject alone. *)
Theorem status_needs_subject (s1 s2 : Status) :
  Status_value s1 = Status_value s2 →
  (about s1 = about s2 → s1 = s2)
  ∧ (about s1 = about s2
     ∨ (about s1 = Subject_session ∧ about s2 = Subject_kernel)
     ∨ (about s1 = Subject_kernel ∧ about s2 = Subject_session)
     ∨ (about s1 = Subject_notebook ∧ about s2 = Subject_cell)
     ∨ (about s1 = Subject_cell ∧ about s2 = Subject_notebook)).
Proof.
  destruct s1 as [[]|[]|[]|[]|[]], s2 as [[]|[]|[]|[]|[]];
    cbn; intros Hv; try discriminate Hv; (split; [by intros|tauto]).
Qed.

(** A session and a kernel that are ready say the same. *)
Lemma status_needs_subject_witness :
  Status_value (OfSession Session_ready) = Status_value (OfKernel Kernel_ready)
  ∧ (about (OfSession Session_ready) = about (OfKernel Kernel_ready)
     ∨ (about (OfSession Session_ready) = Subject_session
        ∧ about (OfKernel Kernel_ready) = Subject_kernel)
     ∨ (about (OfSession Session_ready) = Subject_kernel
        ∧ about (OfKernel Kernel_ready) = Subject_session)
     ∨ (about (OfSession Session_ready) = Subject_notebook
        ∧ about (OfKernel Kernel_ready) = Subject_cell)
     ∨ (about (OfSession Session_ready) = Subject_cell
        ∧ about (OfKernel Kernel_ready) = Subject_notebook)).
Proof.
  split; [reflexivity|].
  apply (status_needs_subject (OfSession Session_ready)
           (OfKernel Kernel_ready) eq_refl).
Defined.

End Messages.
